(** * card_fraud.py: compromise propagation and fraud queries over a property graph

    The program drives a Memgraph store through Cypher statements.  The
    development below embeds

    - the property graph the statements build (Card, Pos and Transaction
      nodes, Using and At relationships),
    - each Cypher statement of [card_fraud.py] as a function on that graph,
    - the Python functions around them in a small state-and-exception monad
      whose state holds the store and the two random sources (Python's
      [random] module and the store's [rand()]). *)

From Stdlib Require Import ZArith QArith Lia String Sorted.
From stdpp Require Import base option list.

Set Default Proof Using "Type".

(** ** The property graph *)

Module Graph.

(** Nodes carry the properties the statements read and write.  A node is
    addressed by its handle: its position in the list of nodes of its label.
    Nodes are only ever appended or altered in place (the one deletion is
    [drop_database], which empties the store), so handles are stable. *)

Record Card := mkCard { card_id : Z; card_compromised : bool }.
Record Pos := mkPos { pos_id : Z; pos_compromised : bool }.
Record Transaction := mkTransaction { tx_id : Z; fraudReported : bool }.

(** [using_edges] holds one pair [(t, c)] per relationship
    [(t:Transaction)-[:Using]->(c:Card)], [at_edges] one pair [(t, p)] per
    relationship [(t:Transaction)-[:At]->(p:Pos)].  No statement of the
    program creates a relationship of another type or between other labels. *)
Record t := mk {
  cards : list Card;
  devices : list Pos;
  transactions : list Transaction;
  using_edges : list (nat * nat);
  at_edges : list (nat * nat)
}.

Definition empty : t := mk [] [] [] [] [].

Definition with_cards (f : list Card → list Card) (g : t) : t :=
  mk (f (cards g)) (devices g) (transactions g) (using_edges g) (at_edges g).
Definition with_devices (f : list Pos → list Pos) (g : t) : t :=
  mk (cards g) (f (devices g)) (transactions g) (using_edges g) (at_edges g).
Definition with_transactions (f : list Transaction → list Transaction) (g : t) : t :=
  mk (cards g) (devices g) (f (transactions g)) (using_edges g) (at_edges g).

Definition set_card_compromised (b : bool) (c : Card) : Card :=
  mkCard (card_id c) b.
Definition set_pos_compromised (b : bool) (p : Pos) : Pos :=
  mkPos (pos_id p) b.
Definition set_fraudReported (b : bool) (x : Transaction) : Transaction :=
  mkTransaction (tx_id x) b.

(** Handles of the nodes of a list that satisfy [P], in store order:
    the rows of [MATCH (n:Label {prop: value})]. *)
Fixpoint scan_from {A} (P : A → bool) (i : nat) (l : list A) : list nat :=
  match l with
  | [] => []
  | a :: l' => if P a then i :: scan_from P (S i) l' else scan_from P (S i) l'
  end.
Definition scan {A} (P : A → bool) (l : list A) : list nat := scan_from P 0 l.

(** The relationships [(src, dst)] of a list whose source is [h], resp.
    whose destination is [h], with their positions (a relationship's
    position is its identity). *)
Definition out_of (h : nat) (es : list (nat * nat)) : list (nat * (nat * nat)) :=
  List.filter (λ e, Nat.eqb (fst (snd e)) h) (imap pair es).
Definition into (h : nat) (es : list (nat * nat)) : list (nat * (nat * nat)) :=
  List.filter (λ e, Nat.eqb (snd (snd e)) h) (imap pair es).

(** Cypher's inclusive [range(a, b)]. *)
Definition cypher_range (a b : Z) : list Z :=
  map (λ k, (a + Z.of_nat k)%Z) (seq 0 (Z.to_nat (b - a + 1))).

End Graph.

Import Graph.

(** ** The Cypher statements of the program *)

Module Cypher.

(** The statements [card_fraud.py] renders with [str.format] and hands to
    [memgraph.execute] / [memgraph.execute_and_fetch], with the values it
    interpolates as arguments. *)
Inductive Statement :=
| DropDatabase
| CreateCards (card_count : Z)
| CreateDevices (pos_count : Z)
| CompromisePos (pos_id : Z)
| CreateTransaction (card_id pos_id tx_id : Z) (report_pct : Q)
| ResolvePos (pos_id : Z)
| MatchCompromisedPos
| MatchFraudulentTransactions.

(** [rand() < p] on rationals; floating point is abstracted. *)
Definition Qltb (r p : Q) : bool := negb (Qle_bool p r).

(** The store's source of [rand()] values: the value at 0 is the next one. *)
Definition shift {A} (s : nat → A) : nat → A := λ n, s (S n).

(** *** UNWIND range(0, n - 1) AS id CREATE (:Card {id: id, compromised: false}) *)
Definition create_card (g : Graph.t) (id : Z) : Graph.t :=
  with_cards (λ l, l ++ [mkCard id false]) g.
Definition create_cards (card_count : Z) (g : Graph.t) : Graph.t :=
  foldl create_card g (cypher_range 0 (card_count - 1)).

(** *** UNWIND range(0, n - 1) AS id CREATE (:Pos {id: id, compromised: false}) *)
Definition create_device (g : Graph.t) (id : Z) : Graph.t :=
  with_devices (λ l, l ++ [mkPos id false]) g.
Definition create_devices (pos_count : Z) (g : Graph.t) : Graph.t :=
  foldl create_device g (cypher_range 0 (pos_count - 1)).

(** *** MATCH (p:Pos {id: pos_id}) SET p.compromised = true *)
Definition match_pos (id : Z) (g : Graph.t) : list nat :=
  scan (λ p, Z.eqb (pos_id p) id) (devices g).
Definition match_card (id : Z) (g : Graph.t) : list nat :=
  scan (λ c, Z.eqb (card_id c) id) (cards g).
Definition set_compromised (id : Z) (g : Graph.t) : Graph.t :=
  foldl (λ g p, with_devices (alter (set_pos_compromised true) p) g)
        g (match_pos id g).

(** *** MATCH (c:Card {id: ..}), (p:Pos {id: ..})
        CREATE (t:Transaction {id: .., fraudReported: c.compromised AND (rand() < pct)})
        CREATE (c)<-[:Using]-(t)-[:At]->(p)
        SET c.compromised = p.compromised

    One row of the match: the new node reads [c.compromised] as the row
    finds it, the two relationships are created, and only then the SET
    clause overwrites [c.compromised] with [p.compromised]. *)
Definition create_transaction_row (i : Z) (trial : bool) (g : Graph.t) (c p : nat)
  : Graph.t :=
  match cards g !! c, devices g !! p with
  | Some cn, Some pn =>
      let t := length (transactions g) in
      Graph.mk (<[c := set_card_compromised (pos_compromised pn) cn]> (cards g))
               (devices g)
               (transactions g ++ [mkTransaction i (card_compromised cn && trial)])
               (using_edges g ++ [(t, c)])
               (at_edges g ++ [(t, p)])
  | _, _ => g
  end.

(** The rows of the match are the cartesian product of the cards and the
    devices with the given ids; they are processed one after the other, each
    drawing its own [rand()]. *)
Definition transaction_rows (cid pid : Z) (g : Graph.t) : list (nat * nat) :=
  flat_map (λ c, map (pair c) (match_pos pid g)) (match_card cid g).
Definition create_transaction (cid pid i : Z) (report_pct : Q)
    (s : Graph.t * (nat → Q)) : Graph.t * (nat → Q) :=
  foldl (λ s row,
           (create_transaction_row i (Qltb (snd s 0) report_pct) (fst s)
                                   (fst row) (snd row),
            shift (snd s)))
        s (transaction_rows cid pid (fst s)).

(** *** MATCH (p:Pos {id: ..}) SET p.compromised = false
        WITH p MATCH (p)--(t:Transaction)--(c:Card)
        SET t.fraudReported = false, c.compromised = false

    The only relationships at a Pos node are At relationships, whose other
    end is a Transaction; the only relationships between a Transaction and a
    Card are Using relationships.  So the undirected pattern binds [t] to the
    source of an At relationship into [p], and [c] to the destination of a
    Using relationship out of [t]. *)
Definition resolve_rows (g : Graph.t) (p : nat) : list (nat * nat) :=
  flat_map (λ e1, map (λ e2, (fst (snd e1), snd (snd e2)))
                      (out_of (fst (snd e1)) (using_edges g)))
           (into p (at_edges g)).
Definition resolve_row (g : Graph.t) (row : nat * nat) : Graph.t :=
  with_cards (alter (set_card_compromised false) (snd row))
    (with_transactions (alter (set_fraudReported false) (fst row)) g).
Definition resolve_device (g : Graph.t) (p : nat) : Graph.t :=
  let g1 := with_devices (alter (set_pos_compromised false) p) g in
  foldl resolve_row g1 (resolve_rows g1 p).
Definition resolve (id : Z) (g : Graph.t) : Graph.t :=
  foldl resolve_device g (match_pos id g).

(** *** MATCH (t:Transaction {fraudReported: true})-[:Using]->(:Card)
              <-[:Using]-(:Transaction)-[:At]->(p:Pos)
        WITH p.id as pos, count(t) as connected_frauds
        WHERE connected_frauds > 1
        RETURN pos, connected_frauds ORDER BY connected_frauds DESC *)
Record PosFrauds := mkPosFrauds { pos : Z; connected_frauds : nat }.

(** The matches of the path pattern, each projected to [p.id].  The two
    Using relationships of one match are distinct relationships (Cypher
    never binds one relationship twice in a pattern). *)
Definition fraud_paths (g : Graph.t) : list Z :=
  flat_map (λ t,
    flat_map (λ e1,
      flat_map (λ e2,
        if Nat.eqb (fst e2) (fst e1) then []
        else flat_map (λ e3,
               match devices g !! snd (snd e3) with
               | Some p => [pos_id p]
               | None => []
               end)
             (out_of (fst (snd e2)) (at_edges g)))
        (into (snd (snd e1)) (using_edges g)))
      (out_of t (using_edges g)))
    (scan fraudReported (transactions g)).

(** Grouping with [count]: one group per key, in order of first occurrence. *)
Fixpoint tally (k : Z) (groups : list PosFrauds) : list PosFrauds :=
  match groups with
  | [] => [mkPosFrauds k 1]
  | r :: groups' =>
      if Z.eqb (pos r) k then mkPosFrauds (pos r) (S (connected_frauds r)) :: groups'
      else r :: tally k groups'
  end.
Definition group_count (keys : list Z) : list PosFrauds :=
  foldl (λ groups k, tally k groups) [] keys.

(** ORDER BY connected_frauds DESC, as a stable insertion sort (the store
    promises no order among equal counts). *)
Fixpoint insert_desc (r : PosFrauds) (l : list PosFrauds) : list PosFrauds :=
  match l with
  | [] => [r]
  | r' :: l' =>
      if Nat.ltb (connected_frauds r') (connected_frauds r) then r :: l
      else r' :: insert_desc r l'
  end.
Definition order_by_desc (l : list PosFrauds) : list PosFrauds :=
  foldr insert_desc [] l.

Definition match_compromised_pos (g : Graph.t) : list PosFrauds :=
  order_by_desc
    (List.filter (λ r, Nat.ltb 1 (connected_frauds r))
                 (group_count (fraud_paths g))).

(** *** MATCH (t:Transaction {fraudReported: true}) RETURN t.id as id *)
Definition match_fraudulent_transactions (g : Graph.t) : list Z :=
  flat_map (λ t, match transactions g !! t with
                 | Some x => [tx_id x]
                 | None => []
                 end)
           (scan fraudReported (transactions g)).

(** Execution of a write statement on the store (graph and [rand()] source). *)
Definition exec (q : Statement) (s : Graph.t * (nat → Q)) : Graph.t * (nat → Q) :=
  match q with
  | DropDatabase => (Graph.empty, snd s)
  | CreateCards n => (create_cards n (fst s), snd s)
  | CreateDevices n => (create_devices n (fst s), snd s)
  | CompromisePos id => (set_compromised id (fst s), snd s)
  | CreateTransaction cid pid i pct => create_transaction cid pid i pct s
  | ResolvePos id => (resolve id (fst s), snd s)
  | MatchCompromisedPos | MatchFraudulentTransactions => s
  end.

End Cypher.

Import Cypher.

(** ** The Python program *)

(** Exceptions the modelled code can raise.  Both are Python's [ValueError];
    the argument records which library call raised it. *)
Inductive Raiser := from_sample | from_randrange.
Inductive Exn := ValueError (by_ : Raiser).

Inductive outcome (A : Type) :=
| Returned (a : A)
| Raised (e : Exn).
Arguments Returned {A} a.
Arguments Raised {A} e.

(** The state the program runs in: the store behind the global [memgraph]
    handle, the statements sent to it so far (oldest first), the store's
    [rand()] source and the source of Python's [random] module. *)
Record World := mkWorld {
  memgraph : Graph.t;
  journal : list Statement;
  db_entropy : nat → Q;
  py_entropy : nat → nat
}.

Definition Py (A : Type) : Type := World → outcome A * World.

Definition ret {A} (a : A) : Py A := λ w, (Returned a, w).
Definition bind {A B} (m : Py A) (k : A → Py B) : Py B :=
  λ w, match m w with
       | (Returned a, w') => k a w'
       | (Raised e, w') => (Raised e, w')
       end.
Definition raise {A} (e : Exn) : Py A := λ w, (Raised e, w).

Declare Scope py_scope.
Delimit Scope py_scope with py.
Notation "x <- m ;; k" := (bind m (λ x, k))
  (at level 100, m at next level, right associativity) : py_scope.
Notation "m ;; k" := (bind m (λ _, k))
  (at level 100, right associativity) : py_scope.
Open Scope py_scope.

(** [for x in l: body x] *)
Fixpoint for_each {A} (l : list A) (body : A → Py unit) : Py unit :=
  match l with
  | [] => ret tt
  | x :: l' => body x ;; for_each l' body
  end.

(** [memgraph.execute(statement)] *)
Definition execute (q : Statement) : Py unit :=
  λ w, let s := exec q (memgraph w, db_entropy w) in
       (Returned tt, mkWorld (fst s) (journal w ++ [q]) (snd s) (py_entropy w)).

(** [list(memgraph.execute_and_fetch(statement))] for a read statement whose
    rows are computed by [rows]. *)
Definition execute_and_fetch {R} (q : Statement) (rows : Graph.t → list R)
  : Py (list R) :=
  λ w, (Returned (rows (memgraph w)),
        mkWorld (memgraph w) (journal w ++ [q]) (db_entropy w) (py_entropy w)).

(** [memgraph.drop_database()] *)
Definition drop_database : Py unit := execute DropDatabase.

(** *** The [random] module *)

(** A draw below [n]: the next raw value of the source, reduced. *)
Definition randbelow (n : nat) : Py nat :=
  λ w, (Returned (py_entropy w 0 `mod` n),
        mkWorld (memgraph w) (journal w) (db_entropy w) (shift (py_entropy w))).

(** [randint(a, b)]: an integer of [a..b]; an empty range raises. *)
Definition randint (a b : Z) : Py Z :=
  if (b <? a)%Z then raise (ValueError from_randrange)
  else k <- randbelow (Z.to_nat (b - a + 1)) ;; ret (a + Z.of_nat k)%Z.

(** [range(n)] *)
Definition py_range (n : Z) : list Z := map Z.of_nat (seq 0 (Z.to_nat n)).

(** [sample(population, k)]: [k] elements drawn without replacement; raises
    when [k] is negative or larger than the population. *)
Fixpoint sample_pool (pool : list Z) (k : nat) : Py (list Z) :=
  match k with
  | O => ret []
  | S k' =>
      j <- randbelow (length pool) ;;
      match pool !! j with
      | Some x => rest <- sample_pool (delete j pool) k' ;; ret (x :: rest)
      | None => ret []
      end
  end.
Definition sample (population : list Z) (k : Z) : Py (list Z) :=
  if ((k <? 0) || (Z.of_nat (length population) <? k))%Z
  then raise (ValueError from_sample)
  else sample_pool population (Z.to_nat k).

(** *** The functions of card_fraud.py *)

Definition init_data (card_count pos_count : Z) : Py unit :=
  execute (CreateCards card_count) ;;
  execute (CreateDevices pos_count).

Definition compromise_pos (pos_id : Z) : Py unit :=
  execute (CompromisePos pos_id).

Definition compromise_pos_devices (pos_count fraud_count : Z) : Py unit :=
  compromised_devices <- sample (py_range pos_count) fraud_count ;;
  for_each compromised_devices compromise_pos.

Definition rint (max : Z) : Py Z := randint 0 (max - 1).

(** ["%f" % x]: the value as the six-decimal literal that is written into the
    statement, rounded to nearest, ties to even. *)
Definition percent_f (x : Q) : Q :=
  let a := (Qnum x * 1000000)%Z in
  let d := Z.pos (Qden x) in
  let k := (a / d)%Z in
  let r := (a mod d)%Z in
  let n := if (2 * r <? d)%Z then k
           else if (d <? 2 * r)%Z then (k + 1)%Z
           else if Z.even k then k else (k + 1)%Z in
  Qred (n # 1000000).

(** The statement text is built once, before the loop, with the report
    probability rendered by [%f]; each iteration fills in the three ids. *)
Definition pump_transactions (card_count pos_count tx_count : Z) (report_pct : Q)
  : Py unit :=
  let rendered := percent_f report_pct in
  for_each (py_range tx_count) (λ i,
    c <- rint card_count ;;
    p <- rint pos_count ;;
    execute (CreateTransaction c p i rendered)).

(** The JSON bodies the routes read and write; durations are wall-clock
    readings and carry no content here. *)
Inductive Body :=
| body_error (msg : string)
| body_duration
| body_fraudulent_txs (ids : list Z).
Record Response := mkResponse { body : Body; status : Z }.

Record GenerateRequest := mkGenerateRequest {
  req_cards : Z;
  req_pos : Z;
  req_transactions : Z;
  req_frauds : Z;
  req_reports : Q
}.

Definition resolve_pos (data_pos : Z) : Py Response :=
  execute (ResolvePos data_pos) ;;
  ret (mkResponse body_duration 200).

Definition get_compromised_pos : Py (list PosFrauds) :=
  execute_and_fetch MatchCompromisedPos match_compromised_pos.

Definition get_fraudulent_transactions : Py Response :=
  data <- execute_and_fetch MatchFraudulentTransactions
                            match_fraudulent_transactions ;;
  ret (mkResponse (body_fraudulent_txs data) 200).

Definition generate_data (data : GenerateRequest) : Py Response :=
  if (req_pos data <? req_frauds data)%Z then
    ret (mkResponse (body_error "There can't be more frauds than devices") 418)
  else
    drop_database ;;
    init_data (req_cards data) (req_pos data) ;;
    compromise_pos_devices (req_pos data) (req_frauds data) ;;
    pump_transactions (req_cards data) (req_pos data)
                      (req_transactions data) (req_reports data) ;;
    ret (mkResponse body_duration 201).

(** ** Vocabulary of the properties *)

(** The graph [init_data] leaves behind when it starts from an empty store. *)
Definition population (card_count pos_count : Z) : Graph.t :=
  Graph.mk (map (λ id, mkCard id false) (py_range card_count))
           (map (λ id, mkPos id false) (py_range pos_count))
           [] [] [].

(** The nodes the remediation statement is meant to reach, in the words of
    the contract: the transactions with an At relationship to a device with
    the given id, and the cards those transactions use. *)
Definition at_pos (id : Z) (g : Graph.t) (t : nat) : Prop :=
  ∃ p d, devices g !! p = Some d ∧ pos_id d = id ∧ (t, p) ∈ at_edges g.

Definition remediated_tx (id : Z) (g : Graph.t) (t : nat) : Prop :=
  at_pos id g t ∧ ∃ c, (t, c) ∈ using_edges g.

Definition remediated_card (id : Z) (g : Graph.t) (c : nat) : Prop :=
  ∃ t, at_pos id g t ∧ (t, c) ∈ using_edges g.

(** A run of [generate_data] followed by [resolve_pos 0]: one card, two
    devices, both compromised; transaction 0 uses the card at device 0,
    transaction 1 uses it at device 1 and is reported. *)
Definition two_device_run : World :=
  snd (resolve_pos 0
         (snd (generate_data (mkGenerateRequest 1 2 2 2 1%Q)
                 (mkWorld Graph.empty [] (λ _, 0%Q)
                          (λ n, if Nat.eqb n 5 then 1 else 0))))).

(** One card and two devices, device 0 compromised; transaction 0 uses the
    card at device 0, transaction 1 uses it at the clean device 1. *)
Definition reuse_request (tx_count : Z) : GenerateRequest :=
  mkGenerateRequest 1 2 tx_count 1 1%Q.

Definition reuse_world : World :=
  mkWorld Graph.empty [] (λ _, 0%Q) (λ n, if Nat.eqb n 4 then 1 else 0).

(** The count a list of groups records for a key (0 when it has no group). *)
Fixpoint count_in (groups : list PosFrauds) (k : Z) : nat :=
  match groups with
  | [] => 0
  | r :: groups' =>
      if Z.eqb (pos r) k then connected_frauds r else count_in groups' k
  end.

(** Number of matches of the path pattern that end at a device with id [k]. *)
Definition matches_at (g : Graph.t) (k : Z) : nat :=
  count_occ Z.eq_dec (fraud_paths g) k.

(** The order of ORDER BY connected_frauds DESC. *)
Definition by_count_desc (a b : PosFrauds) : Prop :=
  connected_frauds b ≤ connected_frauds a.

(** Executing a sequence of statements, oldest first. *)
Definition replay (qs : list Statement) (s : Graph.t * (nat → Q))
  : Graph.t * (nat → Q) :=
  foldl (λ s q, exec q s) s qs.

(** The world after the program has sent the statements [qs] and left
    Python's random source at [e]. *)
Definition after (qs : list Statement) (e : nat → nat) (w : World) : World :=
  mkWorld (fst (replay qs (memgraph w, db_entropy w)))
          (journal w ++ qs)
          (snd (replay qs (memgraph w, db_entropy w)))
          e.

(** [runs m w r qs]: from [w], [m] ends with outcome [r] after sending
    exactly the statements [qs]. *)
Definition runs {A} (m : Py A) (w : World) (r : outcome A)
    (qs : list Statement) : Prop :=
  ∃ e, m w = (r, after qs e w).

(** The value [rint max] returns on a source [e], for [max >= 1]. *)
Definition draw (max : Z) (e : nat → nat) : Z :=
  Z.of_nat (e 0 `mod` Z.to_nat max).

(** The statements of the loop for the draws [(card id, device id)], the
    first one numbered [k]. *)
Fixpoint tx_statements (k : nat) (pct : Q) (draws : list (Z * Z))
  : list Statement :=
  match draws with
  | [] => []
  | d :: draws' =>
      CreateTransaction (fst d) (snd d) (Z.of_nat k) pct
        :: tx_statements (S k) pct draws'
  end.

(** A draw names an existing card id and an existing device id. *)
Definition in_range (card_count pos_count : Z) (d : Z * Z) : Prop :=
  (0 ≤ fst d < card_count)%Z ∧ (0 ≤ snd d < pos_count)%Z.

(** The draws of [n] iterations on a source [e]: two values per iteration,
    the card id first. *)
Fixpoint draws_of (cc pc : Z) (e : nat → nat) (n : nat) : list (Z * Z) :=
  match n with
  | O => []
  | S n' => (draw cc e, draw pc (shift e)) :: draws_of cc pc (shift (shift e)) n'
  end.

(** The two answers of [generate_data]. *)
Definition invalid_parameter : Response :=
  mkResponse (body_error "There can't be more frauds than devices") 418.

Definition created : Response := mkResponse body_duration 201.

(** The statements of a whole generation run, in the order they are sent. *)
Definition generation (data : GenerateRequest) (devs : list Z)
    (draws : list (Z * Z)) : list Statement :=
  [DropDatabase; CreateCards (req_cards data); CreateDevices (req_pos data)]
  ++ map CompromisePos devs
  ++ tx_statements 0 (percent_f (req_reports data)) draws.

(** The ids of the cards and of the devices are [0 .. count - 1], in store
    order, so the node with id [i] is the one at handle [i]. *)
Definition dense (card_count pos_count : Z) (g : Graph.t) : Prop :=
  map card_id (cards g) = py_range card_count ∧
  map pos_id (devices g) = py_range pos_count.

(** The graph between compromise selection and the first transaction. *)
Definition populated (card_count pos_count : Z) (g : Graph.t) : Prop :=
  dense card_count pos_count g ∧
  transactions g = [] ∧ using_edges g = [] ∧ at_edges g = [].

(** ** The /pos-graph route *)

(** One record of the route's answer: the property maps of the five nodes of
    a matched chain, under the keys the route gives them. *)
Record Chain := mkChain {
  chain_p1 : Pos;
  chain_t1 : Transaction;
  chain_c : Card;
  chain_t2 : Transaction;
  chain_p2 : Pos
}.

(** *** MATCH (p1:Pos)<-[:At]-(t1:Transaction {fraudReported: true})-[:Using]
              ->(c:Card)<-[:Using]-(t2:Transaction)-[:At]->(p2:Pos {id: ..})
        RETURN p1, t1, c, t2, p2

    The four relationships of one match are distinct relationships: the two
    At relationships differ, and so do the two Using relationships. *)
Definition match_pos_graph (id : Z) (g : Graph.t) : list Chain :=
  flat_map (λ t,
    match transactions g !! t with
    | None => []
    | Some x1 =>
      flat_map (λ e0,
        match devices g !! snd (snd e0) with
        | None => []
        | Some d1 =>
          flat_map (λ e1,
            match cards g !! snd (snd e1) with
            | None => []
            | Some cn =>
              flat_map (λ e2,
                if Nat.eqb (fst e2) (fst e1) then []
                else
                  match transactions g !! fst (snd e2) with
                  | None => []
                  | Some x2 =>
                    flat_map (λ e3,
                      if Nat.eqb (fst e3) (fst e0) then []
                      else
                        match devices g !! snd (snd e3) with
                        | Some d2 =>
                            if Z.eqb (pos_id d2) id
                            then [mkChain d1 x1 cn x2 d2] else []
                        | None => []
                        end)
                      (out_of (fst (snd e2)) (at_edges g))
                  end)
                (into (snd (snd e1)) (using_edges g))
            end)
            (out_of t (using_edges g))
        end)
        (out_of t (at_edges g))
    end)
    (scan fraudReported (transactions g)).

Record PosGraphResponse := mkPosGraphResponse {
  pg_output : list Chain;
  pg_status : Z
}.

(** The route reads the store and answers with one record per row.  It
    sends one read statement; the journal keeps the statements of the other
    routes only. *)
Definition host (request_pos : Z) : Py PosGraphResponse :=
  λ w, (Returned (mkPosGraphResponse
                    (match_pos_graph request_pos (memgraph w)) 200), w).

(** ** Vocabulary of the further properties *)

(** The devices after the ids [devs] have been compromised on a fresh
    population of [pos_count] devices. *)
Definition seeded_devices (pos_count : Z) (devs : list Z) : list Pos :=
  map (λ id, mkPos id (bool_decide (id ∈ devs))) (py_range pos_count).

(** The graph after the drop, [init_data] and the compromise of [devs]. *)
Definition seeded (card_count pos_count : Z) (devs : list Z) : Graph.t :=
  Graph.mk (map (λ id, mkCard id false) (py_range card_count))
           (seeded_devices pos_count devs) [] [] [].

(** Transaction [t] uses card [c] at a device whose flag is set. *)
Definition used_at_compromised (g : Graph.t) (t c : nat) : Prop :=
  ∃ p pn, (t, c) ∈ using_edges g ∧ (t, p) ∈ at_edges g ∧
          devices g !! p = Some pn ∧ pos_compromised pn = true.

(** Every compromised card has a transaction that used it at a compromised
    device. *)
Definition compromise_explained (g : Graph.t) : Prop :=
  ∀ c cn, cards g !! c = Some cn → card_compromised cn = true →
          ∃ t, t < length (transactions g) ∧ used_at_compromised g t c.

(** Every reported transaction uses a card that an earlier transaction used
    at a compromised device. *)
Definition reports_explained (g : Graph.t) : Prop :=
  ∀ t x, transactions g !! t = Some x → fraudReported x = true →
         ∃ c t0, t0 < t ∧ (t, c) ∈ using_edges g ∧ used_at_compromised g t0 c.

(** [ch] is a chain of the graph ending at a device with id [id]: a reported
    transaction [t] at a device [h1] uses a card [c] that another Using
    relationship links to a transaction [t'] at a device [h2] with that id,
    the two At relationships and the two Using relationships being distinct;
    [ch] holds the properties of the five nodes. *)
Definition is_chain (id : Z) (g : Graph.t) (ch : Chain) : Prop :=
  ∃ t e0 h1 e1 c e2 t' e3 h2,
    transactions g !! t = Some (chain_t1 ch) ∧
    fraudReported (chain_t1 ch) = true ∧
    at_edges g !! e0 = Some (t, h1) ∧
    devices g !! h1 = Some (chain_p1 ch) ∧
    using_edges g !! e1 = Some (t, c) ∧
    cards g !! c = Some (chain_c ch) ∧
    using_edges g !! e2 = Some (t', c) ∧ e2 ≠ e1 ∧
    transactions g !! t' = Some (chain_t2 ch) ∧
    at_edges g !! e3 = Some (t', h2) ∧ e3 ≠ e0 ∧
    devices g !! h2 = Some (chain_p2 ch) ∧
    pos_id (chain_p2 ch) = id.

(** [t] is the latest transaction that uses card [c]. *)
Definition latest_use (g : Graph.t) (c t : nat) : Prop :=
  (t, c) ∈ using_edges g ∧ ∀ t', (t', c) ∈ using_edges g → t' ≤ t.

(** A card never used is not compromised; a card that was used carries the
    flag of the device of its latest transaction. *)
Definition flag_follows_latest_use (g : Graph.t) : Prop :=
  ∀ c cn, cards g !! c = Some cn →
    ((∀ t, (t, c) ∉ using_edges g) ∧ card_compromised cn = false) ∨
    (∃ t p pn, latest_use g c t ∧ (t, p) ∈ at_edges g ∧
               devices g !! p = Some pn ∧
               card_compromised cn = pos_compromised pn).

(** * Properties *)

(** ** Node matching *)

Section Scan.
Context {A : Type} (P : A → bool).

Lemma elem_of_scan_from (i h : nat) (l : list A) :
  h ∈ scan_from P i l ↔ i ≤ h ∧ ∃ a, l !! (h - i) = Some a ∧ P a = true.
Proof.
  revert i. induction l as [|a l IH]; intros i; simpl.
  - split; [by intros ?%elem_of_nil | by intros (_ & a & ? & _)].
  - assert (Hstep : h ∈ scan_from P (S i) l ↔
                    S i ≤ h ∧ ∃ b, (a :: l) !! (h - i) = Some b ∧ P b = true).
    { rewrite IH. split; intros (Hle & b & Hb & HP); (split; [lia|]);
        exists b; (split; [|done]).
      - by replace (h - i) with (S (h - S i)) by lia.
      - by replace (h - i) with (S (h - S i)) in Hb by lia. }
    destruct (P a) eqn:Ha.
    + rewrite elem_of_cons, Hstep. split.
      * intros [->|(Hle & b & Hb & HP)].
        -- split; [lia|]. exists a. by rewrite Nat.sub_diag.
        -- split; [lia|]. by exists b.
      * intros (Hle & b & Hb & HP).
        destruct (decide (h = i)) as [->|Hne]; [by left|right].
        split; [lia|]. by exists b.
    + rewrite Hstep. split.
      * intros (Hle & b & Hb & HP). split; [lia|]. by exists b.
      * intros (Hle & b & Hb & HP). split; [|by exists b].
        destruct (decide (h = i)) as [->|Hne]; [|lia].
        rewrite Nat.sub_diag in Hb. simpl in Hb. congruence.
Qed.

Lemma elem_of_scan (h : nat) (l : list A) :
  h ∈ scan P l ↔ ∃ a, l !! h = Some a ∧ P a = true.
Proof.
  unfold scan. rewrite elem_of_scan_from, Nat.sub_0_r.
  split; [by intros [_ ?] | intros ?; split; [lia|done]].
Qed.

(** Reading the matched nodes back gives the filtered list. *)
Lemma scan_from_read {B} (f : A → B) (pre l : list A) :
  flat_map (λ h, match (pre ++ l) !! h with
                 | Some x => [f x]
                 | None => []
                 end)
           (scan_from P (length pre) l)
  = map f (List.filter P l).
Proof.
  revert pre. induction l as [|a l IH]; intros pre; [done|]. simpl.
  specialize (IH (pre ++ [a])).
  rewrite <- app_assoc, length_app in IH. simpl in IH.
  rewrite Nat.add_1_r in IH.
  destruct (P a); simpl; [|done].
  rewrite list_lookup_middle by done. simpl. by rewrite IH.
Qed.
End Scan.

(** When the keys of the nodes are [i, i+1, ..], a key is matched by the one
    node at its own position. *)
Lemma scan_from_dense {A} (key : A → Z) (id : Z) (i : nat) (l : list A) :
  map key l = map Z.of_nat (seq i (length l)) →
  scan_from (λ a, Z.eqb (key a) id) i l =
    if decide (Z.of_nat i ≤ id < Z.of_nat (i + length l))%Z
    then [Z.to_nat id] else [].
Proof.
  revert i. induction l as [|a l IH]; intros i Hk; simpl in *.
  - case_decide; [lia|done].
  - injection Hk as Ha Hl. rewrite (IH (S i) Hl), Ha.
    destruct (Z.eqb_spec (Z.of_nat i) id) as [<-|Hne].
    + rewrite Nat2Z.id. rewrite decide_False by lia. rewrite decide_True by lia.
      done.
    + repeat case_decide; try done; lia.
Qed.

Lemma scan_dense {A} (key : A → Z) (id : Z) (l : list A) :
  map key l = map Z.of_nat (seq 0 (length l)) →
  scan (λ a, Z.eqb (key a) id) l =
    if decide (0 ≤ id < Z.of_nat (length l))%Z then [Z.to_nat id] else [].
Proof.
  intros Hk. unfold scan. rewrite (scan_from_dense key id 0 l Hk).
  repeat case_decide; try done; lia.
Qed.

(** ** Altering nodes in place *)

Section AlterAll.
Context {A : Type} (f : A → A) (f_idem : ∀ a, f (f a) = f a).

Lemma foldl_alter_lookup (hs : list nat) (l : list A) (i : nat) :
  foldl (λ l h, alter f h l) l hs !! i =
    if decide (i ∈ hs) then f <$> l !! i else l !! i.
Proof using f_idem.
  revert l. induction hs as [|h hs IH]; intros l; simpl.
  - destruct (decide (i ∈ [])) as [?%elem_of_nil|]; done.
  - rewrite IH. destruct (decide (h = i)) as [->|Hne].
    + rewrite list_lookup_alter_eq.
      destruct (decide (i ∈ hs)) as [Hi|Hi], (decide (i ∈ i :: hs)) as [Hj|Hn];
        try (exfalso; apply Hn, elem_of_cons; by left).
      * destruct (l !! i); simpl; [by rewrite f_idem | done].
      * done.
    + rewrite list_lookup_alter_ne by done.
      destruct (decide (i ∈ hs)) as [Hi|Hi], (decide (i ∈ h :: hs)) as [Hj|Hj];
        try done.
      * exfalso. apply Hj, elem_of_cons. by right.
      * apply elem_of_cons in Hj as [->|Hj]; done.
Qed.

Lemma foldl_alter_length (hs : list nat) (l : list A) :
  length (foldl (λ l h, alter f h l) l hs) = length l.
Proof.
  revert l. induction hs as [|h hs IH]; intros l; simpl; [done|].
  by rewrite IH, length_alter.
Qed.
End AlterAll.

(** ** Population Initializer *)

Lemma cypher_range_from_0 (n : Z) : cypher_range 0 (n - 1) = py_range n.
Proof.
  unfold cypher_range, py_range.
  replace (n - 1 - 0 + 1)%Z with n by lia. by apply map_ext.
Qed.

Lemma py_range_length (n : Z) : length (py_range n) = Z.to_nat n.
Proof. unfold py_range. by rewrite length_map, length_seq. Qed.

Lemma foldl_create_card (ids : list Z) (g : Graph.t) :
  foldl create_card g ids =
    with_cards (λ l, l ++ map (λ id, mkCard id false) ids) g.
Proof.
  revert g. induction ids as [|id ids IH]; intros g; simpl.
  - destruct g. unfold with_cards. simpl. by rewrite app_nil_r.
  - rewrite IH. unfold with_cards, create_card, with_cards. simpl.
    by rewrite <- app_assoc.
Qed.

Lemma foldl_create_device (ids : list Z) (g : Graph.t) :
  foldl create_device g ids =
    with_devices (λ l, l ++ map (λ id, mkPos id false) ids) g.
Proof.
  revert g. induction ids as [|id ids IH]; intros g; simpl.
  - destruct g. unfold with_devices. simpl. by rewrite app_nil_r.
  - rewrite IH. unfold with_devices, create_device, with_devices. simpl.
    by rewrite <- app_assoc.
Qed.

Lemma create_cards_eq (n : Z) (g : Graph.t) :
  create_cards n g =
    with_cards (λ l, l ++ map (λ id, mkCard id false) (py_range n)) g.
Proof. unfold create_cards. by rewrite cypher_range_from_0, foldl_create_card. Qed.

Lemma create_devices_eq (n : Z) (g : Graph.t) :
  create_devices n g =
    with_devices (λ l, l ++ map (λ id, mkPos id false) (py_range n)) g.
Proof.
  unfold create_devices. by rewrite cypher_range_from_0, foldl_create_device.
Qed.

Lemma init_data_run (card_count pos_count : Z) (w : World) :
  init_data card_count pos_count w =
    (Returned tt,
     mkWorld (create_devices pos_count (create_cards card_count (memgraph w)))
             (journal w ++ [CreateCards card_count; CreateDevices pos_count])
             (db_entropy w) (py_entropy w)).
Proof.
  unfold init_data, bind, execute. simpl. by rewrite <- app_assoc.
Qed.

Lemma init_population (card_count pos_count : Z) :
  create_devices pos_count (create_cards card_count Graph.empty) =
    population card_count pos_count.
Proof. by rewrite create_devices_eq, create_cards_eq. Qed.

(** C8.  Run against an empty graph with [card_count >= 0] and
    [pos_count >= 0], [init_data] returns normally and leaves exactly
    [card_count] Card nodes with ids [0 .. card_count - 1] and exactly
    [pos_count] Pos nodes with ids [0 .. pos_count - 1], every one with
    [compromised = false], and nothing else (no transaction, no
    relationship); a count of 0 gives no node of that kind. *)
Theorem init_data_creates_population (card_count pos_count : Z) (w : World) :
  (0 ≤ card_count)%Z → (0 ≤ pos_count)%Z →
  memgraph w = Graph.empty →
  ∃ w',
    init_data card_count pos_count w = (Returned tt, w') ∧
    cards (memgraph w') =
      map (λ k, mkCard (Z.of_nat k) false) (seq 0 (Z.to_nat card_count)) ∧
    devices (memgraph w') =
      map (λ k, mkPos (Z.of_nat k) false) (seq 0 (Z.to_nat pos_count)) ∧
    Z.of_nat (length (cards (memgraph w'))) = card_count ∧
    Z.of_nat (length (devices (memgraph w'))) = pos_count ∧
    transactions (memgraph w') = [] ∧
    using_edges (memgraph w') = [] ∧
    at_edges (memgraph w') = [].
Proof.
  intros Hc Hp Hempty. eexists. split; [apply init_data_run|]. simpl.
  rewrite Hempty, init_population. unfold population, py_range. simpl.
  rewrite !map_map, !length_map, !length_seq.
  repeat split; lia.
Qed.

Lemma init_data_creates_population_witness :
  ∃ w',
    init_data 2 1 (mkWorld Graph.empty [] (λ _, 0%Q) (λ _, 0)) = (Returned tt, w') ∧
    cards (memgraph w') = [mkCard 0 false; mkCard 1 false] ∧
    devices (memgraph w') = [mkPos 0 false].
Proof.
  destruct (init_data_creates_population 2 1
              (mkWorld Graph.empty [] (λ _, 0%Q) (λ _, 0)))
    as (w' & Hrun & Hcards & Hdevs & _); [lia | lia | reflexivity |].
  exists w'. repeat split; assumption.
Defined.

(** ** Fraud Query Engine: fraudulent transactions *)

Lemma match_fraudulent_transactions_eq (g : Graph.t) :
  match_fraudulent_transactions g =
    map tx_id (List.filter fraudReported (transactions g)).
Proof.
  unfold match_fraudulent_transactions, scan.
  apply (scan_from_read fraudReported tx_id [] (transactions g)).
Qed.

(** C7.  [get_fraudulent_transactions] answers with status 200 and exactly
    the ids of the transactions whose [fraudReported] is true: an id is in
    the answer iff some transaction of the graph carries it with the flag
    set.  The store is left as it was, and when no transaction is flagged the
    answer is the empty list, still with status 200. *)
Theorem get_fraudulent_transactions_exact (w : World) :
  ∃ ids w',
    get_fraudulent_transactions w =
      (Returned (mkResponse (body_fraudulent_txs ids) 200), w') ∧
    memgraph w' = memgraph w ∧
    (∀ i, i ∈ ids ↔
          ∃ x, x ∈ transactions (memgraph w) ∧ fraudReported x = true ∧ tx_id x = i) ∧
    ((∀ x, x ∈ transactions (memgraph w) → fraudReported x = false) → ids = []).
Proof.
  eexists _, _. split; [reflexivity|]. split; [reflexivity|].
  rewrite match_fraudulent_transactions_eq. split.
  - intros i. rewrite list_elem_of_In, in_map_iff. split.
    + intros (x & Hid & [Hx Hf]%filter_In). exists x.
      by rewrite list_elem_of_In.
    + intros (x & Hx%list_elem_of_In & Hf & Hid). exists x.
      by rewrite filter_In.
  - intros Hnone. induction (transactions (memgraph w)) as [|x l IH]; [done|].
    simpl. rewrite (Hnone x) by (apply elem_of_cons; auto).
    apply IH. intros y Hy. apply Hnone. apply elem_of_cons. auto.
Qed.

(** ** Relationships *)

Lemma in_out_of (h : nat) (es : list (nat * nat)) (e : nat * (nat * nat)) :
  In e (out_of h es) ↔ es !! fst e = Some (snd e) ∧ fst (snd e) = h.
Proof.
  unfold out_of. rewrite filter_In, <- list_elem_of_In, elem_of_lookup_imap.
  rewrite Nat.eqb_eq. split.
  - intros [(i & x & -> & Hx) Hh]. by simpl in *.
  - intros [He Hh]. split; [|done]. exists (fst e), (snd e).
    by destruct e.
Qed.

Lemma in_into (h : nat) (es : list (nat * nat)) (e : nat * (nat * nat)) :
  In e (into h es) ↔ es !! fst e = Some (snd e) ∧ snd (snd e) = h.
Proof.
  unfold into. rewrite filter_In, <- list_elem_of_In, elem_of_lookup_imap.
  rewrite Nat.eqb_eq. split.
  - intros [(i & x & -> & Hx) Hh]. by simpl in *.
  - intros [He Hh]. split; [|done]. exists (fst e), (snd e).
    by destruct e.
Qed.

(** ** Remediation Engine *)

Lemma resolve_rows_ext (g g' : Graph.t) (p : nat) :
  using_edges g' = using_edges g → at_edges g' = at_edges g →
  resolve_rows g' p = resolve_rows g p.
Proof. unfold resolve_rows. by intros -> ->. Qed.

Lemma in_resolve_rows (g : Graph.t) (p t c : nat) :
  In (t, c) (resolve_rows g p) ↔ (t, p) ∈ at_edges g ∧ (t, c) ∈ using_edges g.
Proof.
  unfold resolve_rows. rewrite in_flat_map. split.
  - intros (e1 & [H1 Hp]%in_into & (e2 & Heq & [H2 Ht]%in_out_of)%in_map_iff).
    destruct e1 as [k1 [t1 p1]], e2 as [k2 [t2 c2]]. simpl in *.
    injection Heq as <- <-. subst.
    split; eapply list_elem_of_lookup_2; eassumption.
  - intros [[k1 H1]%list_elem_of_lookup_1 [k2 H2]%list_elem_of_lookup_1].
    exists (k1, (t, p)). split; [by apply in_into|].
    apply in_map_iff. exists (k2, (t, c)). split; [done|]. by apply in_out_of.
Qed.

Lemma foldl_resolve_row (rows : list (nat * nat)) (g : Graph.t) :
  foldl resolve_row g rows =
    Graph.mk (foldl (λ l h, alter (set_card_compromised false) h l)
                    (cards g) (map snd rows))
             (devices g)
             (foldl (λ l h, alter (set_fraudReported false) h l)
                    (transactions g) (map fst rows))
             (using_edges g) (at_edges g).
Proof.
  revert g. induction rows as [|row rows IH]; intros g; simpl.
  - by destruct g.
  - by rewrite IH.
Qed.

Lemma foldl_resolve_device (ps : list nat) (g : Graph.t) :
  foldl resolve_device g ps =
    Graph.mk (foldl (λ l h, alter (set_card_compromised false) h l)
                    (cards g) (map snd (flat_map (resolve_rows g) ps)))
             (foldl (λ l h, alter (set_pos_compromised false) h l)
                    (devices g) ps)
             (foldl (λ l h, alter (set_fraudReported false) h l)
                    (transactions g) (map fst (flat_map (resolve_rows g) ps)))
             (using_edges g) (at_edges g).
Proof.
  revert g. induction ps as [|p ps IH]; intros g; simpl.
  - by destruct g.
  - rewrite IH. unfold resolve_device. rewrite foldl_resolve_row. simpl.
    rewrite !map_app, !foldl_app.
    rewrite (resolve_rows_ext g (with_devices _ g) p) by done.
    rewrite (flat_map_ext (resolve_rows (Graph.mk _ _ _ _ _)) (resolve_rows g))
      by (intros q; by apply resolve_rows_ext).
    done.
Qed.

Lemma elem_of_match_pos (id : Z) (g : Graph.t) (p : nat) :
  p ∈ match_pos id g ↔ ∃ d, devices g !! p = Some d ∧ pos_id d = id.
Proof.
  unfold match_pos. rewrite elem_of_scan.
  split; intros (d & Hd & Hid); exists d; (split; [done|]); lia.
Qed.

Lemma elem_of_resolved_txs (id : Z) (g : Graph.t) (t : nat) :
  t ∈ map fst (flat_map (resolve_rows g) (match_pos id g)) ↔ remediated_tx id g t.
Proof.
  rewrite list_elem_of_In, in_map_iff. split.
  - intros ([t' c] & <- & (p & Hp & [Hat Hus]%in_resolve_rows)%in_flat_map).
    apply list_elem_of_In, elem_of_match_pos in Hp as (d & Hd & Hid).
    split; [by exists p, d | by exists c].
  - intros [(p & d & Hd & Hid & Hat) [c Hus]]. exists (t, c). split; [done|].
    apply in_flat_map. exists p. split.
    + apply list_elem_of_In, elem_of_match_pos. by exists d.
    + by apply in_resolve_rows.
Qed.

Lemma elem_of_resolved_cards (id : Z) (g : Graph.t) (c : nat) :
  c ∈ map snd (flat_map (resolve_rows g) (match_pos id g)) ↔
  remediated_card id g c.
Proof.
  rewrite list_elem_of_In, in_map_iff. split.
  - intros ([t c'] & <- & (p & Hp & [Hat Hus]%in_resolve_rows)%in_flat_map).
    apply list_elem_of_In, elem_of_match_pos in Hp as (d & Hd & Hid).
    exists t. split; [by exists p, d | done].
  - intros (t & (p & d & Hd & Hid & Hat) & Hus). exists (t, c). split; [done|].
    apply in_flat_map. exists p. split.
    + apply list_elem_of_In, elem_of_match_pos. by exists d.
    + by apply in_resolve_rows.
Qed.

(** What the remediation statement does to each node list. *)
Lemma resolve_devices (id : Z) (g : Graph.t) (h : nat) :
  devices (resolve id g) !! h =
    (λ d, if Z.eqb (pos_id d) id then set_pos_compromised false d else d)
      <$> devices g !! h.
Proof.
  unfold resolve. rewrite foldl_resolve_device. simpl.
  rewrite foldl_alter_lookup by done.
  destruct (devices g !! h) as [d|] eqn:Hd; simpl.
  - destruct (Z.eqb_spec (pos_id d) id) as [Hid|Hid].
    + rewrite decide_True; [done|]. apply elem_of_match_pos. by exists d.
    + rewrite decide_False; [done|]. intros (d' & Hd' & Hid')%elem_of_match_pos.
      congruence.
  - by case_decide.
Qed.

Lemma resolve_transactions (id : Z) (g : Graph.t) (t : nat) :
  (remediated_tx id g t →
   transactions (resolve id g) !! t = set_fraudReported false <$> transactions g !! t) ∧
  (¬ remediated_tx id g t →
   transactions (resolve id g) !! t = transactions g !! t).
Proof.
  unfold resolve. rewrite foldl_resolve_device. simpl.
  rewrite foldl_alter_lookup by done.
  split; intros H.
  - by rewrite decide_True by by apply elem_of_resolved_txs.
  - rewrite decide_False; [done|]. by rewrite elem_of_resolved_txs.
Qed.

Lemma resolve_cards (id : Z) (g : Graph.t) (c : nat) :
  (remediated_card id g c →
   cards (resolve id g) !! c = set_card_compromised false <$> cards g !! c) ∧
  (¬ remediated_card id g c → cards (resolve id g) !! c = cards g !! c).
Proof.
  unfold resolve. rewrite foldl_resolve_device. simpl.
  rewrite foldl_alter_lookup by done.
  split; intros H.
  - by rewrite decide_True by by apply elem_of_resolved_cards.
  - rewrite decide_False; [done|]. by rewrite elem_of_resolved_cards.
Qed.

Lemma resolve_edges (id : Z) (g : Graph.t) :
  using_edges (resolve id g) = using_edges g ∧
  at_edges (resolve id g) = at_edges g.
Proof. unfold resolve. by rewrite foldl_resolve_device. Qed.

Lemma resolve_pos_run (p : Z) (w : World) :
  resolve_pos p w =
    (Returned (mkResponse body_duration 200),
     mkWorld (resolve p (memgraph w)) (journal w ++ [ResolvePos p])
             (db_entropy w) (py_entropy w)).
Proof. reflexivity. Qed.

(** C5.  [resolve_pos p] changes exactly this: every Pos node with id [p]
    gets [compromised = false]; every transaction with an At relationship to
    such a node (and a Using relationship to a card) gets
    [fraudReported = false]; every card such a transaction uses gets
    [compromised = false].  Every other node keeps its properties, ids are
    untouched, and no relationship is added or removed. *)
Theorem resolve_pos_changes_exactly (p : Z) (w : World) :
  ∃ w',
    resolve_pos p w = (Returned (mkResponse body_duration 200), w') ∧
    (∀ h, devices (memgraph w') !! h =
          (λ d, if Z.eqb (pos_id d) p then mkPos (pos_id d) false else d)
            <$> devices (memgraph w) !! h) ∧
    (∀ t, remediated_tx p (memgraph w) t →
          transactions (memgraph w') !! t =
            (λ x, mkTransaction (tx_id x) false) <$> transactions (memgraph w) !! t) ∧
    (∀ t, ¬ remediated_tx p (memgraph w) t →
          transactions (memgraph w') !! t = transactions (memgraph w) !! t) ∧
    (∀ c, remediated_card p (memgraph w) c →
          cards (memgraph w') !! c =
            (λ x, mkCard (card_id x) false) <$> cards (memgraph w) !! c) ∧
    (∀ c, ¬ remediated_card p (memgraph w) c →
          cards (memgraph w') !! c = cards (memgraph w) !! c) ∧
    using_edges (memgraph w') = using_edges (memgraph w) ∧
    at_edges (memgraph w') = at_edges (memgraph w).
Proof.
  eexists. split; [apply resolve_pos_run|]. simpl.
  split; [apply resolve_devices|].
  split; [intros t; apply resolve_transactions|].
  split; [intros t; apply resolve_transactions|].
  split; [intros c; apply resolve_cards|].
  split; [intros c; apply resolve_cards|].
  apply resolve_edges.
Qed.

(** The nodes reached from a device id are the same before and after the
    statement: it changes neither ids nor relationships. *)
Lemma at_pos_resolve (id : Z) (g : Graph.t) (t : nat) :
  at_pos id (resolve id g) t ↔ at_pos id g t.
Proof.
  unfold at_pos. destruct (resolve_edges id g) as [_ ->].
  split; intros (p & d & Hd & Hid & Hat).
  - rewrite resolve_devices in Hd.
    destruct (devices g !! p) as [d0|] eqn:Hd0; [|done]. injection Hd as <-.
    exists p, d0. split; [done|]. split; [|done].
    by destruct (Z.eqb (pos_id d0) id).
  - exists p, (if Z.eqb (pos_id d) id then set_pos_compromised false d else d).
    rewrite resolve_devices, Hd. split; [done|]. split; [|done].
    by destruct (Z.eqb (pos_id d) id).
Qed.

(** C4, as amended.  After [resolve_pos p], every Pos node with id [p] has
    [compromised = false], every card reachable from such a node through a
    transaction has [compromised = false], and every transaction at such a
    node has [fraudReported = false].  A transaction that is not at such a
    node keeps its [fraudReported] flag, also when it uses one of those
    cards at another device. *)
Theorem resolve_pos_clears_reachable (p : Z) (w : World) :
  ∃ w',
    resolve_pos p w = (Returned (mkResponse body_duration 200), w') ∧
    (∀ h d, devices (memgraph w') !! h = Some d → pos_id d = p →
            pos_compromised d = false) ∧
    (∀ c x, remediated_card p (memgraph w') c →
            cards (memgraph w') !! c = Some x → card_compromised x = false) ∧
    (∀ t x, remediated_tx p (memgraph w') t →
            transactions (memgraph w') !! t = Some x → fraudReported x = false) ∧
    (∀ t, ¬ at_pos p (memgraph w) t →
          transactions (memgraph w') !! t = transactions (memgraph w) !! t) ∧
    (∀ t c, remediated_card p (memgraph w) c →
            (t, c) ∈ using_edges (memgraph w) → ¬ at_pos p (memgraph w) t →
            transactions (memgraph w') !! t = transactions (memgraph w) !! t).
Proof.
  assert (Hkeep : ∀ t, ¬ at_pos p (memgraph w) t →
            transactions (resolve p (memgraph w)) !! t =
            transactions (memgraph w) !! t).
  { intros t Hnot. apply resolve_transactions. by intros [Hat _]. }
  eexists. split; [apply resolve_pos_run|]. simpl.
  set (g := memgraph w) in *.
  split; [|split; [|split; [|split; [exact Hkeep|]]]];
    [| | |intros t c _ _; apply Hkeep].
  - intros h d Hd Hid. rewrite resolve_devices in Hd.
    destruct (devices g !! h) as [d0|]; [|done]. injection Hd as <-.
    destruct (Z.eqb_spec (pos_id d0) p) as [Heq|Hne]; [done|].
    by simpl in Hid.
  - intros c x (t & Hat & Hus) Hx. apply (proj1 (at_pos_resolve _ _ _)) in Hat.
    destruct (resolve_edges p g) as [Hu _]. rewrite Hu in Hus.
    destruct (resolve_cards p g c) as [Hin _].
    rewrite Hin in Hx by by exists t.
    destruct (cards g !! c); [|done]. by injection Hx as <-.
  - intros t x [Hat [c Hus]] Hx. apply (proj1 (at_pos_resolve _ _ _)) in Hat.
    destruct (resolve_edges p g) as [Hu _]. rewrite Hu in Hus.
    destruct (resolve_transactions p g t) as [Hin _].
    rewrite Hin in Hx by (split; [done | by exists c]).
    destruct (transactions g !! t); [|done]. by injection Hx as <-.
Qed.

(** C4 as stated fails: after [resolve_pos 0] a transaction that uses one of
    device 0's cards, at device 1, still has [fraudReported = true]. *)
Lemma resolve_pos_leaves_report_at_other_device :
  ∃ t c x,
    remediated_card 0 (memgraph two_device_run) c ∧
    (t, c) ∈ using_edges (memgraph two_device_run) ∧
    transactions (memgraph two_device_run) !! t = Some x ∧
    fraudReported x = true.
Proof.
  exists 1, 0, (mkTransaction 1 true). repeat split.
  - exists 0. split.
    + exists 0, (mkPos 0 false). repeat split.
      apply list_elem_of_In. vm_compute. auto.
    + apply list_elem_of_In. vm_compute. auto.
  - apply list_elem_of_In. vm_compute. auto.
Qed.

(** ** Transaction Generator: one transaction *)

Lemma create_transaction_single (cid pid i : Z) (pct : Q) (g : Graph.t)
    (rs : nat → Q) (c p : nat) :
  match_card cid g = [c] → match_pos pid g = [p] →
  create_transaction cid pid i pct (g, rs) =
    (create_transaction_row i (Qltb (rs 0) pct) g c p, shift rs).
Proof.
  intros Hc Hp. unfold create_transaction, transaction_rows. simpl.
  by rewrite Hc, Hp.
Qed.




(** C1 on the code.  After transaction 0 the card is compromised.  The run
    with one more transaction sends one more statement, for the same card at
    the uncompromised device 1, and ends with the card's [compromised] back
    to false. *)
Theorem clean_device_resets_compromised_card :
  cards (memgraph (snd (generate_data (reuse_request 1) reuse_world)))
    = [mkCard 0 true] ∧
  devices (memgraph (snd (generate_data (reuse_request 1) reuse_world)))
    = [mkPos 0 true; mkPos 1 false] ∧
  journal (snd (generate_data (reuse_request 2) reuse_world))
    = journal (snd (generate_data (reuse_request 1) reuse_world))
      ++ [CreateTransaction 0 1 1 1%Q] ∧
  fst (generate_data (reuse_request 2) reuse_world)
    = Returned (mkResponse body_duration 201) ∧
  cards (memgraph (snd (generate_data (reuse_request 2) reuse_world)))
    = [mkCard 0 false].
Proof. vm_compute. repeat split. Qed.

(** ** Fraud Query Engine: ranked devices *)

Section Grouping.

Lemma count_in_tally (k k' : Z) (gs : list PosFrauds) :
  count_in (tally k gs) k' =
    if Z.eqb k' k then S (count_in gs k) else count_in gs k'.
Proof.
  induction gs as [|r gs IH]; simpl.
  - rewrite (Z.eqb_sym k k'). by destruct (Z.eqb k' k).
  - destruct (Z.eqb_spec (pos r) k) as [Hrk|Hrk]; simpl.
    + destruct (Z.eqb_spec (pos r) k') as [Hrk'|Hrk'];
        destruct (Z.eqb_spec k' k); try done; congruence.
    + rewrite IH.
      destruct (Z.eqb_spec (pos r) k') as [Hrk'|Hrk'];
        destruct (Z.eqb_spec k' k); try done; congruence.
Qed.

Lemma in_keys_tally (k k' : Z) (gs : list PosFrauds) :
  In k' (map pos (tally k gs)) ↔ k' = k ∨ In k' (map pos gs).
Proof.
  induction gs as [|r gs IH]; simpl.
  - intuition.
  - destruct (Z.eqb_spec (pos r) k); simpl; [intuition congruence|].
    rewrite IH. intuition.
Qed.

Lemma tally_NoDup (k : Z) (gs : list PosFrauds) :
  List.NoDup (map pos gs) → List.NoDup (map pos (tally k gs)).
Proof.
  induction gs as [|r gs IH]; simpl; intros Hnd.
  - constructor; [by intros []|constructor].
  - inversion Hnd as [|? ? Hnotin Hnd']; subst.
    destruct (Z.eqb_spec (pos r) k); simpl; [by constructor|].
    constructor; [|by apply IH].
    rewrite in_keys_tally. intros [?|?]; [congruence|done].
Qed.

Lemma count_in_absent (k : Z) (gs : list PosFrauds) :
  ¬ In k (map pos gs) → count_in gs k = 0.
Proof.
  induction gs as [|r gs IH]; simpl; [done|]. intros Hnotin.
  destruct (Z.eqb_spec (pos r) k); [|apply IH]; tauto.
Qed.

Lemma count_in_member (r : PosFrauds) (gs : list PosFrauds) :
  List.NoDup (map pos gs) → In r gs → count_in gs (pos r) = connected_frauds r.
Proof.
  induction gs as [|r' gs IH]; simpl; [done|]. intros Hnd [->|Hin].
  - by rewrite Z.eqb_refl.
  - inversion Hnd as [|? ? Hnotin Hnd']; subst.
    destruct (Z.eqb_spec (pos r') (pos r)) as [Heq|Hne]; [|by apply IH].
    exfalso. apply Hnotin. rewrite Heq. by apply in_map.
Qed.

Lemma member_of_count_in (k : Z) (gs : list PosFrauds) :
  0 < count_in gs k → In (mkPosFrauds k (count_in gs k)) gs.
Proof.
  induction gs as [|r gs IH]; simpl; [lia|]. intros Hpos.
  destruct (Z.eqb_spec (pos r) k) as [<-|Hne]; [left; by destruct r|].
  right. by apply IH.
Qed.

Lemma group_count_snoc (keys : list Z) (k : Z) :
  group_count (keys ++ [k]) = tally k (group_count keys).
Proof. unfold group_count. by rewrite foldl_app. Qed.

Lemma group_count_NoDup (keys : list Z) :
  List.NoDup (map pos (group_count keys)).
Proof.
  induction keys as [|k keys IH] using rev_ind; [constructor|].
  rewrite group_count_snoc. by apply tally_NoDup.
Qed.

Lemma count_in_group_count (keys : list Z) (k : Z) :
  count_in (group_count keys) k = count_occ Z.eq_dec keys k.
Proof.
  induction keys as [|k' keys IH] using rev_ind; [done|].
  rewrite group_count_snoc, count_in_tally, count_occ_app. simpl.
  destruct (Z.eq_dec k' k) as [Heq|Hne'], (Z.eqb_spec k k') as [Heq'|Hne];
    subst; try congruence; rewrite ?IH; lia.
Qed.

(** Groups are never empty: a key gets its group at its first occurrence. *)
Lemma tally_positive (k : Z) (gs : list PosFrauds) :
  Forall (λ r, 0 < connected_frauds r) gs →
  Forall (λ r, 0 < connected_frauds r) (tally k gs).
Proof.
  induction 1 as [|r gs Hr Hgs IH]; simpl.
  - repeat constructor.
  - destruct (Z.eqb (pos r) k); constructor; simpl; try done; lia.
Qed.

Lemma group_count_positive (keys : list Z) :
  Forall (λ r, 0 < connected_frauds r) (group_count keys).
Proof.
  induction keys as [|k keys IH] using rev_ind; [constructor|].
  rewrite group_count_snoc. by apply tally_positive.
Qed.

Lemma group_count_member (keys : list Z) (r : PosFrauds) :
  In r (group_count keys) ↔
  0 < connected_frauds r ∧
  connected_frauds r = count_occ Z.eq_dec keys (pos r).
Proof.
  split.
  - intros Hin. rewrite <- count_in_group_count.
    rewrite (count_in_member r _ (group_count_NoDup keys) Hin).
    split; [|done].
    by apply (proj1 (List.Forall_forall _ _) (group_count_positive keys)).
  - intros [Hpos Heq]. rewrite <- count_in_group_count in Heq.
    rewrite Heq in Hpos. apply member_of_count_in in Hpos.
    rewrite <- Heq in Hpos. by destruct r.
Qed.

End Grouping.

(** A key is among the matches iff the graph holds the path: a reported
    transaction [t], a Using relationship [e1] from it to a card [c], another
    Using relationship [e2] into [c] from a transaction [t2], and an At
    relationship from [t2] to a device with that id. *)
Lemma in_fraud_paths (g : Graph.t) (k : Z) :
  In k (fraud_paths g) ↔
  ∃ t x e1 c e2 t2 p d,
    transactions g !! t = Some x ∧ fraudReported x = true ∧
    using_edges g !! e1 = Some (t, c) ∧
    using_edges g !! e2 = Some (t2, c) ∧ e2 ≠ e1 ∧
    (t2, p) ∈ at_edges g ∧
    devices g !! p = Some d ∧ pos_id d = k.
Proof.
  unfold fraud_paths. rewrite in_flat_map. split.
  - intros (t & Ht & H1). apply list_elem_of_In, elem_of_scan in Ht as (x & Hx & Hf).
    apply in_flat_map in H1 as ([e1 [t1 c]] & [He1 Ht1]%in_out_of & H2).
    apply in_flat_map in H2 as ([e2 [t2 c2]] & [He2 Hc2]%in_into & H3).
    simpl in *. subst t1 c2.
    destruct (Nat.eqb_spec e2 e1) as [|Hne]; [done|].
    apply in_flat_map in H3 as ([e3 [t3 p]] & [He3 Ht3]%in_out_of & H4).
    simpl in *. subst t3.
    destruct (devices g !! p) as [d|] eqn:Hd; [|done].
    destruct H4 as [<-|[]].
    exists t, x, e1, c, e2, t2, p, d. repeat split; try done.
    by eapply list_elem_of_lookup_2.
  - intros (t & x & e1 & c & e2 & t2 & p & d &
            Hx & Hf & He1 & He2 & Hne & [e3 He3]%list_elem_of_lookup_1 & Hd & Hk).
    exists t. split.
    { apply list_elem_of_In, elem_of_scan. by exists x. }
    apply in_flat_map. exists (e1, (t, c)). split; [by apply in_out_of|].
    apply in_flat_map. exists (e2, (t2, c)). split; [by apply in_into|].
    simpl. destruct (Nat.eqb_spec e2 e1) as [|_]; [done|].
    apply in_flat_map. exists (e3, (t2, p)). split; [by apply in_out_of|].
    simpl. rewrite Hd. by left.
Qed.

Section Ordering.

Lemma insert_desc_In (r x : PosFrauds) (l : list PosFrauds) :
  In x (insert_desc r l) ↔ x = r ∨ In x l.
Proof.
  induction l as [|r' l IH]; simpl; [intuition|].
  destruct (Nat.ltb _ _); simpl; [intuition|]. rewrite IH. intuition.
Qed.

Lemma insert_desc_sorted (r : PosFrauds) (l : list PosFrauds) :
  StronglySorted by_count_desc l → StronglySorted by_count_desc (insert_desc r l).
Proof.
  induction 1 as [|r' l Hl IH Hall]; simpl.
  - repeat constructor.
  - destruct (Nat.ltb_spec (connected_frauds r') (connected_frauds r)) as [Hlt|Hge].
    + constructor; [by constructor|].
      constructor; [unfold by_count_desc; lia|].
      eapply Forall_impl; [exact Hall|]. unfold by_count_desc. simpl. lia.
    + constructor; [done|].
      apply List.Forall_forall. intros x [->|Hx]%insert_desc_In; [done|].
      by apply (proj1 (List.Forall_forall _ _) Hall).
Qed.

Lemma order_by_desc_In (x : PosFrauds) (l : list PosFrauds) :
  In x (order_by_desc l) ↔ In x l.
Proof.
  induction l as [|r l IH]; simpl; [done|].
  rewrite insert_desc_In, IH. intuition.
Qed.

Lemma order_by_desc_sorted (l : list PosFrauds) :
  StronglySorted by_count_desc (order_by_desc l).
Proof.
  induction l as [|r l IH]; simpl; [constructor|].
  by apply insert_desc_sorted.
Qed.

End Ordering.

Lemma in_match_compromised_pos (g : Graph.t) (r : PosFrauds) :
  In r (match_compromised_pos g) ↔
  1 < connected_frauds r ∧ connected_frauds r = matches_at g (pos r).
Proof.
  unfold match_compromised_pos, matches_at.
  rewrite order_by_desc_In, filter_In, group_count_member, Nat.ltb_lt. lia.
Qed.

(** C6.  [get_compromised_pos] leaves the store as it was and returns rows
    [(pos, connected_frauds)] such that every row has
    [connected_frauds > 1], the rows are in descending order of
    [connected_frauds], the count of a row is the number of matches of the
    path pattern that end at a device with the row's id, and every id with
    more than one match has its row. *)
Theorem get_compromised_pos_ranked (w : World) :
  ∃ rows w',
    get_compromised_pos w = (Returned rows, w') ∧
    memgraph w' = memgraph w ∧
    (∀ r, r ∈ rows → 1 < connected_frauds r) ∧
    StronglySorted (λ a b, connected_frauds b ≤ connected_frauds a) rows ∧
    (∀ r, r ∈ rows → connected_frauds r = matches_at (memgraph w) (pos r)) ∧
    (∀ k, 1 < matches_at (memgraph w) k →
          mkPosFrauds k (matches_at (memgraph w) k) ∈ rows).
Proof.
  eexists _, _. split; [reflexivity|]. simpl. split; [done|].
  split; [|split; [|split]].
  - by intros r [? _]%list_elem_of_In%in_match_compromised_pos.
  - apply order_by_desc_sorted.
  - by intros r [_ ?]%list_elem_of_In%in_match_compromised_pos.
  - intros k Hk. by apply list_elem_of_In, in_match_compromised_pos.
Qed.

(** ** Running the program: the statements it sends *)

Lemma after_nil (w : World) : after [] (py_entropy w) w = w.
Proof. destruct w. unfold after. simpl. by rewrite app_nil_r. Qed.

Lemma after_after (qs1 qs2 : list Statement) (e1 e2 : nat → nat) (w : World) :
  after qs2 e2 (after qs1 e1 w) = after (qs1 ++ qs2) e2 w.
Proof.
  unfold after, replay. simpl.
  rewrite <- surjective_pairing, foldl_app. by rewrite app_assoc.
Qed.

Lemma runs_bind {A B} (m : Py A) (k : A → Py B) (w : World) (a : A)
    (qs1 qs2 : list Statement) (e1 : nat → nat) (r : outcome B) :
  m w = (Returned a, after qs1 e1 w) →
  runs (k a) (after qs1 e1 w) r qs2 →
  runs (bind m k) w r (qs1 ++ qs2).
Proof.
  intros Hm [e2 Hk]. exists e2. unfold bind. rewrite Hm, Hk.
  by rewrite after_after.
Qed.

Lemma runs_bind_raised {A B} (m : Py A) (k : A → Py B) (w : World)
    (qs : list Statement) (x : Exn) :
  runs m w (Raised x) qs → runs (bind m k) w (Raised x) qs.
Proof. intros [e Hm]. exists e. unfold bind. by rewrite Hm. Qed.

Lemma execute_run (q : Statement) (w : World) :
  execute q w = (Returned tt, after [q] (py_entropy w) w).
Proof. reflexivity. Qed.

Lemma randbelow_run (n : nat) (w : World) :
  randbelow n w =
    (Returned (py_entropy w 0 `mod` n), after [] (shift (py_entropy w)) w).
Proof. unfold randbelow, after. simpl. by rewrite app_nil_r. Qed.

Lemma draw_range (max : Z) (e : nat → nat) :
  (1 ≤ max)%Z → (0 ≤ draw max e < max)%Z.
Proof.
  intros Hmax. unfold draw.
  pose proof (Nat.mod_upper_bound (e 0) (Z.to_nat max)). lia.
Qed.

Lemma rint_run (max : Z) (w : World) :
  (1 ≤ max)%Z →
  rint max w =
    (Returned (draw max (py_entropy w)), after [] (shift (py_entropy w)) w).
Proof.
  intros Hmax. unfold rint, randint, draw.
  destruct (Z.ltb_spec (max - 1) 0) as [|_]; [lia|].
  unfold bind. rewrite randbelow_run.
  replace (max - 1 - 0 + 1)%Z with max by lia. done.
Qed.

Lemma rint_raises (max : Z) (w : World) :
  (max ≤ 0)%Z → rint max w = (Raised (ValueError from_randrange), w).
Proof.
  intros Hmax. unfold rint, randint.
  by destruct (Z.ltb_spec (max - 1) 0) as [_|]; [|lia].
Qed.

(** *** Compromise Selector *)

Lemma sample_pool_run (k : nat) (pool : list Z) (w : World) :
  k ≤ length pool →
  ∃ devs rest e,
    sample_pool pool k w = (Returned devs, after [] e w) ∧
    length devs = k ∧ devs ++ rest ≡ₚ pool.
Proof.
  revert pool w. induction k as [|k IH]; intros pool w Hk; simpl.
  - exists [], pool, (py_entropy w). by rewrite after_nil.
  - unfold bind at 1. rewrite randbelow_run.
    set (j := py_entropy w 0 `mod` length pool).
    assert (Hj : j < length pool) by (apply Nat.mod_upper_bound; lia).
    destruct (lookup_lt_is_Some_2 pool j Hj) as [x Hx]. rewrite Hx.
    destruct (IH (delete j pool) (after [] (shift (py_entropy w)) w))
      as (devs & rest & e & Hrun & Hlen & Hperm).
    { rewrite length_delete by done. lia. }
    exists (x :: devs), rest, e. split; [|split].
    + unfold bind. rewrite Hrun, after_after. done.
    + simpl. by rewrite Hlen.
    + simpl. rewrite Hperm. symmetry. by apply delete_Permutation.
Qed.

Lemma sample_run (population : list Z) (k : Z) (w : World) :
  (0 ≤ k ≤ Z.of_nat (length population))%Z →
  ∃ devs rest e,
    sample population k w = (Returned devs, after [] e w) ∧
    Z.of_nat (length devs) = k ∧ devs ++ rest ≡ₚ population.
Proof.
  intros Hk. unfold sample.
  destruct (Z.ltb_spec k 0); [lia|].
  destruct (Z.ltb_spec (Z.of_nat (length population)) k); [lia|]. simpl.
  destruct (sample_pool_run (Z.to_nat k) population w)
    as (devs & rest & e & Hrun & Hlen & Hperm); [lia|].
  exists devs, rest, e. repeat split; [done|lia|done].
Qed.

Lemma sample_raises (population : list Z) (k : Z) (w : World) :
  (k < 0 ∨ Z.of_nat (length population) < k)%Z →
  sample population k w = (Raised (ValueError from_sample), w).
Proof.
  intros Hk. unfold sample.
  destruct (Z.ltb_spec k 0); [done|].
  destruct (Z.ltb_spec (Z.of_nat (length population)) k); [done|lia].
Qed.

Lemma compromise_loop_run (devs : list Z) (w : World) :
  for_each devs compromise_pos w =
    (Returned tt, after (map CompromisePos devs) (py_entropy w) w).
Proof.
  revert w. induction devs as [|d devs IH]; intros w; simpl.
  - by rewrite after_nil.
  - unfold bind, compromise_pos at 1. rewrite execute_run, IH.
    by rewrite after_after.
Qed.

Lemma py_range_NoDup (n : Z) : NoDup (py_range n).
Proof.
  unfold py_range. apply (NoDup_fmap_2 Z.of_nat), NoDup_seq.
Qed.

Lemma elem_of_py_range (n x : Z) : x ∈ py_range n ↔ (0 ≤ x < n)%Z.
Proof.
  unfold py_range. rewrite list_elem_of_In, in_map_iff. split.
  - intros (k & <- & Hk%in_seq). lia.
  - intros Hx. exists (Z.to_nat x). rewrite in_seq. lia.
Qed.

(** Once the guard of [generate_data] has passed, the selector either raises
    in [sample] (negative [fraud_count]) before any statement, or compromises
    [fraud_count] distinct device ids of [0 .. pos_count - 1]. *)
Lemma compromise_pos_devices_runs (pos_count fraud_count : Z) (w : World) :
  (fraud_count ≤ pos_count)%Z →
  ∃ devs r,
    runs (compromise_pos_devices pos_count fraud_count) w r
         (map CompromisePos devs) ∧
    ((fraud_count < 0)%Z → r = Raised (ValueError from_sample) ∧ devs = []) ∧
    ((0 ≤ fraud_count)%Z →
     r = Returned tt ∧ Z.of_nat (length devs) = fraud_count ∧ NoDup devs ∧
     ∀ d, d ∈ devs → (0 ≤ d < pos_count)%Z).
Proof.
  intros Hle. unfold compromise_pos_devices.
  destruct (Z.lt_ge_cases fraud_count 0) as [Hneg|Hpos].
  - exists [], (Raised (ValueError from_sample)). split; [|split; [done|lia]].
    apply runs_bind_raised. exists (py_entropy w).
    rewrite sample_raises by lia. by rewrite after_nil.
  - destruct (sample_run (py_range pos_count) fraud_count w)
      as (devs & rest & e & Hrun & Hlen & Hperm).
    { rewrite py_range_length. lia. }
    exists devs, (Returned tt). split; [|split; [lia|]].
    + change (map CompromisePos devs) with ([] ++ map CompromisePos devs).
      eapply runs_bind; [exact Hrun|].
      exists e. by rewrite compromise_loop_run.
    + intros _. split; [done|]. split; [done|].
      pose proof (py_range_NoDup pos_count) as Hnd. rewrite <- Hperm in Hnd.
      apply NoDup_app in Hnd as (Hnd & _ & _). split; [done|].
      intros d Hd. apply elem_of_py_range. rewrite <- Hperm.
      apply elem_of_app. by left.
Qed.

(** *** Transaction Generator: the loop *)

Lemma draws_of_length (cc pc : Z) (e : nat → nat) (n : nat) :
  length (draws_of cc pc e n) = n.
Proof. revert e. induction n as [|n IH]; intros e; simpl; [done|]. by rewrite IH. Qed.

Lemma draws_of_in_range (cc pc : Z) (e : nat → nat) (n : nat) :
  (1 ≤ cc)%Z → (1 ≤ pc)%Z → Forall (in_range cc pc) (draws_of cc pc e n).
Proof.
  intros Hcc Hpc. revert e. induction n as [|n IH]; intros e; simpl; [done|].
  constructor; [|apply IH]. split; by apply draw_range.
Qed.

Lemma pump_loop_run (cc pc : Z) (pct : Q) (n k : nat) (w : World) :
  (1 ≤ cc)%Z → (1 ≤ pc)%Z →
  runs (for_each (map Z.of_nat (seq k n))
          (λ i, c <- rint cc ;; p <- rint pc ;;
                execute (CreateTransaction c p i pct)))
       w (Returned tt)
       (tx_statements k pct (draws_of cc pc (py_entropy w) n)).
Proof.
  intros Hcc Hpc. revert k w. induction n as [|n IH]; intros k w; simpl.
  - exists (py_entropy w). by rewrite after_nil.
  - set (q := CreateTransaction (draw cc (py_entropy w))
                (draw pc (shift (py_entropy w))) (Z.of_nat k) pct).
    set (e2 := shift (shift (py_entropy w))).
    assert (Hbody : (c <- rint cc ;; p <- rint pc ;;
                     execute (CreateTransaction c p (Z.of_nat k) pct)) w
                    = (Returned tt, after [q] e2 w)).
    { unfold bind. rewrite (rint_run cc w Hcc), (rint_run pc _ Hpc), execute_run.
      by rewrite !after_after. }
    change (q :: tx_statements (S k) pct (draws_of cc pc e2 n))
      with ([q] ++ tx_statements (S k) pct
                     (draws_of cc pc (py_entropy (after [q] e2 w)) n)).
    eapply runs_bind; [exact Hbody|apply IH].
Qed.

Lemma pump_transactions_runs (cc pc tx : Z) (pct : Q) (w : World) :
  ∃ draws r,
    runs (pump_transactions cc pc tx pct) w r
         (tx_statements 0 (percent_f pct) draws) ∧
    ((tx ≤ 0 ∨ (1 ≤ cc ∧ 1 ≤ pc))%Z →
     r = Returned tt ∧ length draws = Z.to_nat tx ∧ Forall (in_range cc pc) draws) ∧
    ((1 ≤ tx)%Z → (cc ≤ 0 ∨ pc ≤ 0)%Z →
     r = Raised (ValueError from_randrange) ∧ draws = []).
Proof.
  unfold pump_transactions, py_range.
  destruct (Z.le_gt_cases tx 0) as [Htx|Htx].
  { exists [], (Returned tt). replace (Z.to_nat tx) with 0 by lia. simpl.
    split; [|split; [done|lia]].
    exists (py_entropy w). by rewrite after_nil. }
  destruct (Z.le_gt_cases cc 0) as [Hcc|Hcc].
  { exists [], (Raised (ValueError from_randrange)).
    split; [|split; [lia|done]].
    destruct (Z.to_nat tx) as [|n] eqn:Hn; [lia|]. simpl.
    do 2 apply runs_bind_raised. exists (py_entropy w).
    rewrite rint_raises by done. by rewrite after_nil. }
  destruct (Z.le_gt_cases pc 0) as [Hpc|Hpc].
  { exists [], (Raised (ValueError from_randrange)).
    split; [|split; [lia|done]].
    destruct (Z.to_nat tx) as [|n] eqn:Hn; [lia|]. simpl.
    apply runs_bind_raised.
    change (@nil Statement) with (@nil Statement ++ []).
    eapply runs_bind; [apply rint_run; lia|].
    apply runs_bind_raised. eexists.
    rewrite rint_raises by done. by rewrite after_nil. }
  exists (draws_of cc pc (py_entropy w) (Z.to_nat tx)), (Returned tt).
  split; [apply pump_loop_run; lia|]. split; [|lia].
  intros _. split; [done|]. split; [apply draws_of_length|].
  apply draws_of_in_range; lia.
Qed.

(** ** GenerateData *)

Lemma init_data_after (card_count pos_count : Z) (w : World) :
  init_data card_count pos_count w =
    (Returned tt,
     after [CreateCards card_count; CreateDevices pos_count] (py_entropy w) w).
Proof. rewrite init_data_run. unfold after. simpl. done. Qed.

Lemma runs_then_ret {A B} (m : Py A) (b : B) (w : World) (r : outcome A)
    (qs : list Statement) :
  runs m w r qs →
  runs (m ;; ret b) w
       (match r with Returned _ => Returned b | Raised x => Raised x end) qs.
Proof.
  intros [e Hm]. exists e. unfold bind. rewrite Hm. by destruct r.
Qed.

Lemma generate_data_runs (data : GenerateRequest) (w : World) :
  (req_frauds data ≤ req_pos data)%Z →
  ∃ devs draws r,
    runs (generate_data data) w r (generation data devs draws) ∧
    ((req_frauds data < 0)%Z →
     r = Raised (ValueError from_sample) ∧ devs = [] ∧ draws = []) ∧
    ((0 ≤ req_frauds data)%Z →
     (Z.of_nat (length devs) = req_frauds data ∧ NoDup devs ∧
      ∀ d, d ∈ devs → (0 ≤ d < req_pos data)%Z) ∧
     ((req_transactions data ≤ 0 ∨ (1 ≤ req_cards data ∧ 1 ≤ req_pos data))%Z →
      r = Returned created ∧
      length draws = Z.to_nat (req_transactions data) ∧
      Forall (in_range (req_cards data) (req_pos data)) draws) ∧
     ((1 ≤ req_transactions data)%Z → (req_cards data ≤ 0 ∨ req_pos data ≤ 0)%Z →
      r = Raised (ValueError from_randrange) ∧ draws = [])).
Proof.
  intros Hguard. unfold generate_data.
  destruct (Z.ltb_spec (req_pos data) (req_frauds data)) as [|_]; [lia|].
  set (w1 := after [DropDatabase] (py_entropy w) w).
  set (w2 := after [CreateCards (req_cards data); CreateDevices (req_pos data)]
                   (py_entropy w1) w1).
  destruct (compromise_pos_devices_runs (req_pos data) (req_frauds data) w2 Hguard)
    as (devs & r1 & Hsel & Hneg & Hpos).
  destruct (Z.lt_ge_cases (req_frauds data) 0) as [Hfr|Hfr].
  - destruct (Hneg Hfr) as [-> ->].
    exists [], [], (Raised (ValueError from_sample)).
    split; [|split; [done|lia]].
    unfold generation.
    eapply (runs_bind _ _ w tt [DropDatabase]); [apply execute_run|].
    eapply (runs_bind _ _ w1 tt [_; _] []); [apply init_data_after|].
    by apply runs_bind_raised.
  - destruct (Hpos Hfr) as (-> & Hlen & Hnd & Hin).
    destruct Hsel as [e3 Hsel].
    set (w3 := after (map CompromisePos devs) e3 w2) in *.
    destruct (pump_transactions_runs (req_cards data) (req_pos data)
                (req_transactions data) (req_reports data) w3)
      as (draws & r2 & Hpump & Hok & Hfail).
    exists devs, draws,
      (match r2 with Returned _ => Returned created | Raised x => Raised x end).
    split; [|split; [lia|]].
    + unfold generation.
      eapply (runs_bind _ _ w tt [DropDatabase]); [apply execute_run|].
      eapply (runs_bind _ _ w1 tt [_; _]); [apply init_data_after|].
      eapply (runs_bind _ _ w2 tt); [exact Hsel|].
      by apply runs_then_ret.
    + intros _. split; [done|]. split.
      * intros Hcase. destruct (Hok Hcase) as (-> & ? & ?). done.
      * intros Htx Hcase. destruct (Hfail Htx Hcase) as (-> & ?). done.
Qed.

(** C3, as amended.  When [pos < frauds], [generate_data] answers 418 with
    the error body and the world is exactly as before: no statement was sent,
    the graph and both random sources are untouched.  When
    [0 <= frauds <= pos], and no transaction is requested or there is at
    least one card and one device, it answers 201 after sending, in this
    order, the drop, the two creation statements of [init_data], one
    compromise statement for each of [frauds] distinct devices of
    [0 .. pos - 1], and one statement for each of the [transactions]
    transactions; the graph is the result of executing these statements in
    that order. *)
Theorem generate_data_guard_then_steps (data : GenerateRequest) (w : World) :
  ((req_pos data < req_frauds data)%Z →
   generate_data data w = (Returned invalid_parameter, w)) ∧
  ((0 ≤ req_frauds data ≤ req_pos data)%Z →
   (req_transactions data ≤ 0 ∨ (1 ≤ req_cards data ∧ 1 ≤ req_pos data))%Z →
   ∃ devs draws w',
     generate_data data w = (Returned created, w') ∧
     journal w' = journal w ++ generation data devs draws ∧
     memgraph w' =
       fst (replay (generation data devs draws) (memgraph w, db_entropy w)) ∧
     Z.of_nat (length devs) = req_frauds data ∧ NoDup devs ∧
     (∀ d, d ∈ devs → (0 ≤ d < req_pos data)%Z) ∧
     length draws = Z.to_nat (req_transactions data) ∧
     Forall (in_range (req_cards data) (req_pos data)) draws).
Proof.
  split.
  - intros Hlt. unfold generate_data.
    by destruct (Z.ltb_spec (req_pos data) (req_frauds data)) as [_|]; [|lia].
  - intros [Hfr Hle] Hcase.
    destruct (generate_data_runs data w Hle)
      as (devs & draws & r & [e Hrun] & _ & Hpos).
    destruct (Hpos Hfr) as ((Hlen & Hnd & Hin) & Hok & _).
    destruct (Hok Hcase) as (-> & Hdl & Hdr).
    exists devs, draws, (after (generation data devs draws) e w).
    repeat (split; [done|]). done.
Qed.

(** C3 as stated fails.  With [frauds = -1] the guard passes ([pos] is not
    less) and the run ends in the [ValueError] of [sample] after the drop and
    [init_data]: no device is selected and the generator never runs.  With no
    card and one transaction requested the run ends in the [ValueError] of
    [randint] after the selection: no transaction statement is sent. *)
Lemma generate_data_stops_short :
  (req_frauds (mkGenerateRequest 1 2 3 (-1) 1%Q)
   ≤ req_pos (mkGenerateRequest 1 2 3 (-1) 1%Q))%Z ∧
  fst (generate_data (mkGenerateRequest 1 2 3 (-1) 1%Q)
         (mkWorld Graph.empty [] (λ _, 0%Q) (λ _, 0)))
    = Raised (ValueError from_sample) ∧
  journal (snd (generate_data (mkGenerateRequest 1 2 3 (-1) 1%Q)
                  (mkWorld Graph.empty [] (λ _, 0%Q) (λ _, 0))))
    = [DropDatabase; CreateCards 1; CreateDevices 2] ∧
  (req_frauds (mkGenerateRequest 0 2 1 1 1%Q)
   ≤ req_pos (mkGenerateRequest 0 2 1 1 1%Q))%Z ∧
  fst (generate_data (mkGenerateRequest 0 2 1 1 1%Q)
         (mkWorld Graph.empty [] (λ _, 0%Q) (λ _, 0)))
    = Raised (ValueError from_randrange) ∧
  journal (snd (generate_data (mkGenerateRequest 0 2 1 1 1%Q)
                  (mkWorld Graph.empty [] (λ _, 0%Q) (λ _, 0))))
    = [DropDatabase; CreateCards 0; CreateDevices 2; CompromisePos 0].
Proof. vm_compute. repeat split; discriminate. Qed.

(** ** The graph during a generation run *)

Lemma dense_match_card (cc pc c : Z) (g : Graph.t) :
  dense cc pc g → (0 ≤ c < cc)%Z →
  match_card c g = [Z.to_nat c] ∧ is_Some (cards g !! Z.to_nat c).
Proof.
  intros [Hc _] Hr.
  assert (Hlen : length (cards g) = Z.to_nat cc).
  { by rewrite <- (length_map card_id), Hc, py_range_length. }
  split.
  - unfold match_card. rewrite scan_dense.
    + rewrite decide_True; [done|lia].
    + by rewrite Hlen.
  - apply lookup_lt_is_Some_2. lia.
Qed.

Lemma dense_match_pos (cc pc p : Z) (g : Graph.t) :
  dense cc pc g → (0 ≤ p < pc)%Z →
  match_pos p g = [Z.to_nat p] ∧ is_Some (devices g !! Z.to_nat p).
Proof.
  intros [_ Hp] Hr.
  assert (Hlen : length (devices g) = Z.to_nat pc).
  { by rewrite <- (length_map pos_id), Hp, py_range_length. }
  split.
  - unfold match_pos. rewrite scan_dense.
    + rewrite decide_True; [done|lia].
    + by rewrite Hlen.
  - apply lookup_lt_is_Some_2. lia.
Qed.

(** On a dense graph the transaction statement has exactly one row. *)
Lemma exec_transaction_dense (cc pc : Z) (d : Z * Z) (i : Z) (pct : Q)
    (g : Graph.t) (rs : nat → Q) :
  dense cc pc g → in_range cc pc d →
  ∃ cn pn,
    cards g !! Z.to_nat (fst d) = Some cn ∧
    devices g !! Z.to_nat (snd d) = Some pn ∧
    exec (CreateTransaction (fst d) (snd d) i pct) (g, rs) =
      (Graph.mk
         (<[Z.to_nat (fst d) := mkCard (card_id cn) (pos_compromised pn)]> (cards g))
         (devices g)
         (transactions g ++ [mkTransaction i (card_compromised cn && Qltb (rs 0) pct)])
         (using_edges g ++ [(length (transactions g), Z.to_nat (fst d))])
         (at_edges g ++ [(length (transactions g), Z.to_nat (snd d))]),
       shift rs).
Proof.
  intros Hd [Hc Hp].
  destruct (dense_match_card cc pc (fst d) g Hd Hc) as [Hmc [cn Hcn]].
  destruct (dense_match_pos cc pc (snd d) g Hd Hp) as [Hmp [pn Hpn]].
  exists cn, pn. split; [done|]. split; [done|]. simpl.
  rewrite (create_transaction_single _ _ _ _ _ _ _ _ Hmc Hmp).
  unfold create_transaction_row. by rewrite Hcn, Hpn.
Qed.

Lemma replay_transactions_dense (cc pc : Z) (pct : Q) (draws : list (Z * Z))
    (k : nat) (g : Graph.t) (rs : nat → Q) :
  dense cc pc g → Forall (in_range cc pc) draws →
  let g' := fst (replay (tx_statements k pct draws) (g, rs)) in
  dense cc pc g' ∧
  devices g' = devices g ∧
  map tx_id (transactions g') =
    map tx_id (transactions g) ++ map Z.of_nat (seq k (length draws)) ∧
  using_edges g' =
    using_edges g
    ++ imap (λ i d, (length (transactions g) + i, Z.to_nat (fst d))) draws ∧
  at_edges g' =
    at_edges g
    ++ imap (λ i d, (length (transactions g) + i, Z.to_nat (snd d))) draws.
Proof.
  intros Hd Hin. revert k g rs Hd.
  induction Hin as [|d draws Hr Hin IH]; intros k g rs Hd; simpl.
  - by rewrite !app_nil_r.
  - destruct (exec_transaction_dense cc pc d (Z.of_nat k) pct g rs Hd Hr)
      as (cn & pn & Hcn & Hpn & Hexec).
    unfold replay in IH |- *. simpl. simpl in Hexec. rewrite Hexec.
    match goal with |- context [foldl _ (?g1, _) _] => set (g1' := g1) end.
    assert (Hd1 : dense cc pc g1').
    { destruct Hd as [Hc Hp]. split; [|done]. unfold g1'. simpl.
      rewrite <- Hc. change (map card_id) with (fmap (M:=list) card_id).
      rewrite list_fmap_insert. simpl. apply list_insert_id.
      by rewrite list_lookup_fmap, Hcn. }
    destruct (IH (S k) g1' (shift rs) Hd1) as (Hd' & Hdev & Htx & Hus & Hat).
    split; [done|]. split; [by rewrite Hdev|].
    split; [|split].
    + rewrite Htx. unfold g1'. simpl. rewrite map_app, <- app_assoc. done.
    + rewrite Hus. unfold g1'. simpl. rewrite <- app_assoc, length_app. simpl.
      do 2 f_equal; [f_equal; lia|]. apply imap_ext. intros i x _. simpl.
      f_equal. lia.
    + rewrite Hat. unfold g1'. simpl. rewrite <- app_assoc, length_app. simpl.
      do 2 f_equal; [f_equal; lia|]. apply imap_ext. intros i x _. simpl.
      f_equal. lia.
Qed.

Lemma foldl_set_compromised (hs : list nat) (g : Graph.t) :
  foldl (λ g p, with_devices (alter (set_pos_compromised true) p) g) g hs =
    with_devices (λ l, foldl (λ l h, alter (set_pos_compromised true) h l) l hs) g.
Proof.
  revert g. induction hs as [|h hs IH]; intros g; simpl.
  - by destruct g.
  - by rewrite IH.
Qed.

(** Seeding a device changes no id and no other node. *)
Lemma set_compromised_keeps (cc pc id : Z) (g : Graph.t) :
  populated cc pc g → populated cc pc (set_compromised id g).
Proof.
  intros [[Hc Hp] (Ht & Hu & Ha)]. unfold set_compromised.
  rewrite foldl_set_compromised. unfold populated, dense. simpl.
  repeat split; try done.
  rewrite <- Hp. apply list_eq. intros h.
  change (map pos_id) with (fmap (M:=list) pos_id).
  rewrite !list_lookup_fmap, foldl_alter_lookup by done.
  case_decide; [|done]. by destruct (devices g !! h).
Qed.

Lemma replay_compromise (devs : list Z) (g : Graph.t) (rs : nat → Q) :
  replay (map CompromisePos devs) (g, rs) =
    (foldl (λ g d, set_compromised d g) g devs, rs).
Proof.
  unfold replay. revert g. induction devs as [|d devs IH]; intros g; simpl; [done|].
  by rewrite IH.
Qed.

Lemma population_populated (cc pc : Z) : populated cc pc (population cc pc).
Proof.
  unfold populated, dense, population. simpl. rewrite !map_map. simpl.
  by rewrite !map_id.
Qed.

(** Whatever the store held, after the drop, [init_data] and the selected
    compromises it holds the fresh population and nothing else. *)
Lemma replay_seeding (cc pc : Z) (devs : list Z) (g : Graph.t) (rs : nat → Q) :
  populated cc pc
    (fst (replay ([DropDatabase; CreateCards cc; CreateDevices pc]
                  ++ map CompromisePos devs) (g, rs))) ∧
  snd (replay ([DropDatabase; CreateCards cc; CreateDevices pc]
               ++ map CompromisePos devs) (g, rs)) = rs.
Proof.
  unfold replay. rewrite foldl_app. simpl. rewrite init_population.
  fold (replay (map CompromisePos devs) (population cc pc, rs)).
  rewrite replay_compromise. simpl. split; [|done].
  generalize (population_populated cc pc). generalize (population cc pc).
  induction devs as [|d devs IH]; intros g0 Hg0; simpl; [done|].
  apply IH. by apply set_compromised_keeps.
Qed.

(** C10.  With at least one transaction requested, no card or no device,
    and [0 <= frauds <= pos] (so the guard passes and the selection
    succeeds), [generate_data] does not answer: it raises the [ValueError] of
    the empty [randint] range.  By then the drop, both creation statements
    and the compromise statements have been executed and nothing else: the
    store holds the fresh population, without any transaction, instead of
    what it held before. *)
Theorem generate_data_empty_population_raises (data : GenerateRequest) (w : World) :
  (1 ≤ req_transactions data)%Z →
  (req_cards data = 0 ∨ req_pos data = 0)%Z →
  (0 ≤ req_frauds data ≤ req_pos data)%Z →
  ∃ devs w',
    generate_data data w = (Raised (ValueError from_randrange), w') ∧
    journal w' = journal w
                 ++ [DropDatabase; CreateCards (req_cards data);
                     CreateDevices (req_pos data)]
                 ++ map CompromisePos devs ∧
    Z.of_nat (length devs) = req_frauds data ∧
    populated (req_cards data) (req_pos data) (memgraph w').
Proof.
  intros Htx Hzero [Hfr Hle].
  destruct (generate_data_runs data w Hle)
    as (devs & draws & r & [e Hrun] & _ & Hpos).
  destruct (Hpos Hfr) as ((Hlen & _ & _) & _ & Hfail).
  destruct Hfail as [-> ->]; [done|lia|].
  exists devs, (after (generation data devs []) e w).
  split; [done|].
  destruct (replay_seeding (req_cards data) (req_pos data) devs
              (memgraph w) (db_entropy w)) as [Hpop _].
  unfold generation. cbn [tx_statements]. rewrite app_nil_r.
  split; [reflexivity|]. split; [done|exact Hpop].
Qed.

Lemma generate_data_empty_population_raises_witness :
  ∃ devs w',
    generate_data (mkGenerateRequest 0 2 1 1 1%Q)
                  (mkWorld (Graph.mk [mkCard 5 true] [] [] [] []) []
                           (λ _, 0%Q) (λ _, 0))
      = (Raised (ValueError from_randrange), w') ∧
    journal w' = [DropDatabase; CreateCards 0; CreateDevices 2]
                 ++ map CompromisePos devs ∧
    cards (memgraph w') = [] ∧
    transactions (memgraph w') = [].
Proof.
  destruct (generate_data_empty_population_raises
              (mkGenerateRequest 0 2 1 1 1%Q)
              (mkWorld (Graph.mk [mkCard 5 true] [] [] [] []) []
                       (λ _, 0%Q) (λ _, 0)))
    as (devs & w' & Hrun & Hj & _ & [[Hc _] (Ht & _)]);
    [simpl; lia | left; reflexivity | simpl; lia |].
  exists devs, w'. repeat split; try assumption.
  simpl in Hc. by destruct (cards (memgraph w')).
Defined.

(** Every sequence of in-range draws, repeats included, is the outcome of the
    loop on some random source: the draws are not tied to one another. *)
Lemma draws_of_any (cc pc : Z) (targets : list (Z * Z)) :
  Forall (in_range cc pc) targets →
  ∃ e, draws_of cc pc e (length targets) = targets.
Proof.
  induction 1 as [|[c p] targets [Hc Hp] Hin [e IH]]; simpl in *.
  - by exists (λ _, 0).
  - exists (λ n, match n with
                 | 0 => Z.to_nat c
                 | 1 => Z.to_nat p
                 | S (S m) => e m
                 end).
    unfold draw, shift. simpl.
    rewrite !Nat.mod_small by lia. rewrite !Z2Nat.id by lia.
    f_equal. exact IH.
Qed.

(** C9.  On the graph left by initialization and compromise selection for
    [card_count >= 1] cards and [pos_count >= 1] devices, and for
    [tx_count >= 0], [pump_transactions] returns normally after one statement
    per transaction.  The graph then holds exactly [tx_count] transactions,
    with ids [0 .. tx_count - 1] in order; transaction [i] has exactly one
    Using relationship, to the card whose id is the [i]-th card draw, and
    exactly one At relationship, to the device whose id is the [i]-th device
    draw; card draws lie in [0, card_count) and device draws in
    [0, pos_count).  The draws are unconstrained otherwise: every sequence of
    [tx_count] in-range pairs, repeats included, is drawn on some random
    source. *)
Theorem pump_transactions_creates (cc pc tx : Z) (pct : Q) (w : World) :
  (1 ≤ cc)%Z → (1 ≤ pc)%Z → (0 ≤ tx)%Z →
  populated cc pc (memgraph w) →
  let draws := draws_of cc pc (py_entropy w) (Z.to_nat tx) in
  (∃ w',
     pump_transactions cc pc tx pct w = (Returned tt, w') ∧
     journal w' = journal w ++ tx_statements 0 (percent_f pct) draws ∧
     map tx_id (transactions (memgraph w')) = py_range tx ∧
     using_edges (memgraph w') = imap (λ i d, (i, Z.to_nat (fst d))) draws ∧
     at_edges (memgraph w') = imap (λ i d, (i, Z.to_nat (snd d))) draws ∧
     map card_id (cards (memgraph w')) = py_range cc ∧
     map pos_id (devices (memgraph w')) = py_range pc) ∧
  Z.of_nat (length draws) = tx ∧
  Forall (in_range cc pc) draws ∧
  (∀ targets,
     Z.of_nat (length targets) = tx → Forall (in_range cc pc) targets →
     ∃ e, draws_of cc pc e (Z.to_nat tx) = targets).
Proof.
  intros Hcc Hpc Htx [Hd (Ht & Hu & Ha)] draws.
  assert (Hin : Forall (in_range cc pc) draws) by by apply draws_of_in_range.
  assert (Hlen : length draws = Z.to_nat tx) by apply draws_of_length.
  split; [|split; [lia|split; [done|]]].
  - destruct (pump_loop_run cc pc (percent_f pct) (Z.to_nat tx) 0 w Hcc Hpc)
      as [e Hrun].
    fold draws in Hrun.
    exists (after (tx_statements 0 (percent_f pct) draws) e w).
    split; [exact Hrun|]. split; [reflexivity|].
    destruct (replay_transactions_dense cc pc (percent_f pct) draws 0
                (memgraph w) (db_entropy w) Hd Hin) as ([Hc' Hp'] & Hdev & Htxs & Hus & Hat).
    cbn [memgraph after].
    rewrite Htxs, Hus, Hat, Ht, Hu, Ha, Hlen. simpl.
    repeat split; done.
  - intros targets Hlt Hr.
    destruct (draws_of_any cc pc targets Hr) as [e He].
    exists e. by replace (Z.to_nat tx) with (length targets) by lia.
Qed.

Lemma pump_transactions_creates_witness :
  ∃ w',
    pump_transactions 1 2 2 1%Q
      (mkWorld (Graph.mk [mkCard 0 false] [mkPos 0 true; mkPos 1 false] [] [] [])
               [] (λ _, 0%Q) (λ n, if Nat.eqb n 3 then 1 else 0))
      = (Returned tt, w') ∧
    map tx_id (transactions (memgraph w')) = [0; 1]%Z ∧
    using_edges (memgraph w') = [(0, 0); (1, 0)] ∧
    at_edges (memgraph w') = [(0, 0); (1, 1)].
Proof.
  destruct (pump_transactions_creates 1 2 2 1%Q
              (mkWorld (Graph.mk [mkCard 0 false] [mkPos 0 true; mkPos 1 false]
                                 [] [] [])
                       [] (λ _, 0%Q) (λ n, if Nat.eqb n 3 then 1 else 0)))
    as [(w' & Hrun & _ & Htx & Hus & Hat & _) _];
    [lia | lia | lia | repeat split |].
  exists w'. repeat split; assumption.
Defined.

(** * Further properties *)

(** ** Population Initializer on a store that is not empty *)

Lemma scan_from_app {A} (P : A → bool) (i : nat) (l1 l2 : list A) :
  scan_from P i (l1 ++ l2) = scan_from P i l1 ++ scan_from P (i + length l1) l2.
Proof.
  revert i. induction l1 as [|a l1 IH]; intros i; simpl.
  - by rewrite Nat.add_0_r.
  - rewrite IH. replace (S i + length l1) with (i + S (length l1)) by lia.
    by destruct (P a).
Qed.

Lemma fresh_cards_ids (n : Z) :
  map card_id (map (λ id, mkCard id false) (py_range n)) =
    map Z.of_nat (seq 0 (length (map (λ id, mkCard id false) (py_range n)))).
Proof. rewrite map_map, length_map, py_range_length. simpl. by rewrite map_id. Qed.

Lemma fresh_devices_ids (n : Z) :
  map pos_id (map (λ id, mkPos id false) (py_range n)) =
    map Z.of_nat (seq 0 (length (map (λ id, mkPos id false) (py_range n)))).
Proof. rewrite map_map, length_map, py_range_length. simpl. by rewrite map_id. Qed.

Lemma scan_from_shift {A} (P : A → bool) (i : nat) (l : list A) :
  scan_from P i l = map (λ h, i + h) (scan_from P 0 l).
Proof.
  revert i. induction l as [|a l IH]; intros i; simpl; [done|].
  rewrite (IH (S i)), (IH 1).
  destruct (P a); simpl; rewrite map_map, ?Nat.add_0_r; [f_equal|];
    apply map_ext; intros h; lia.
Qed.

(** [init_data] only appends.  Run twice from an empty store, without a drop
    in between, it leaves two Card nodes for every card id and two Pos nodes
    for every device id: the MATCH by id of the later statements then binds
    both. *)
Theorem init_data_twice_duplicates (card_count pos_count : Z) (w : World) :
  (0 ≤ card_count)%Z → (0 ≤ pos_count)%Z →
  memgraph w = Graph.empty →
  ∃ w',
    (init_data card_count pos_count ;; init_data card_count pos_count) w
      = (Returned tt, w') ∧
    length (cards (memgraph w')) = 2 * Z.to_nat card_count ∧
    length (devices (memgraph w')) = 2 * Z.to_nat pos_count ∧
    (∀ id, (0 ≤ id < card_count)%Z →
           match_card id (memgraph w') =
             [Z.to_nat id; Z.to_nat card_count + Z.to_nat id]) ∧
    (∀ id, (0 ≤ id < pos_count)%Z →
           match_pos id (memgraph w') =
             [Z.to_nat id; Z.to_nat pos_count + Z.to_nat id]).
Proof.
  intros Hc Hp Hempty. eexists. split.
  { unfold bind. rewrite init_data_run. apply init_data_run. }
  simpl. rewrite Hempty, init_population.
  rewrite create_devices_eq, create_cards_eq. unfold population. simpl.
  rewrite !length_app, !length_map, !py_range_length.
  split; [lia|]. split; [lia|]. split.
  - intros id Hid. unfold match_card, scan. simpl.
    rewrite scan_from_app, length_map, py_range_length. simpl.
    rewrite (scan_from_shift _ (Z.to_nat card_count)).
    rewrite (scan_from_dense card_id id 0) by apply fresh_cards_ids.
    rewrite length_map, py_range_length.
    rewrite decide_True by lia. done.
  - intros id Hid. unfold match_pos, scan. simpl.
    rewrite scan_from_app, length_map, py_range_length. simpl.
    rewrite (scan_from_shift _ (Z.to_nat pos_count)).
    rewrite (scan_from_dense pos_id id 0) by apply fresh_devices_ids.
    rewrite length_map, py_range_length.
    rewrite decide_True by lia. done.
Qed.

Lemma init_data_twice_duplicates_witness :
  ∃ w',
    (init_data 2 1 ;; init_data 2 1)
      (mkWorld Graph.empty [] (λ _, 0%Q) (λ _, 0)) = (Returned tt, w') ∧
    match_card 1 (memgraph w') = [1; 3] ∧
    match_pos 0 (memgraph w') = [0; 1].
Proof.
  destruct (init_data_twice_duplicates 2 1
              (mkWorld Graph.empty [] (λ _, 0%Q) (λ _, 0)))
    as (w' & Hrun & _ & _ & Hc & Hp); [lia | lia | reflexivity |].
  exists w'. split; [exact Hrun|]. split.
  - apply (Hc 1%Z). lia.
  - apply (Hp 0%Z). lia.
Defined.

(** ** One transaction statement on any graph *)

Lemma scan_from_bound {A} (P : A → bool) (i h : nat) (l : list A) :
  h ∈ scan_from P i l → h < i + length l.
Proof.
  intros (Hle & a & Ha%lookup_lt_Some & _)%elem_of_scan_from. lia.
Qed.

Lemma transaction_rows_length (cid pid : Z) (g : Graph.t) :
  length (transaction_rows cid pid g) =
    length (match_card cid g) * length (match_pos pid g).
Proof.
  unfold transaction_rows.
  induction (match_card cid g) as [|c cs IH]; simpl; [done|].
  by rewrite length_app, length_map, IH.
Qed.

Lemma transaction_rows_valid (cid pid : Z) (g : Graph.t) (row : nat * nat) :
  In row (transaction_rows cid pid g) →
  fst row < length (cards g) ∧ snd row < length (devices g).
Proof.
  unfold transaction_rows.
  intros (c & Hc & (p & <- & Hp)%in_map_iff)%in_flat_map. simpl.
  apply list_elem_of_In, scan_from_bound in Hc.
  apply list_elem_of_In, scan_from_bound in Hp. lia.
Qed.

Lemma in_transaction_rows (cid pid : Z) (g : Graph.t) (c p : nat) :
  (c, p) ∈ transaction_rows cid pid g ↔
  c ∈ match_card cid g ∧ p ∈ match_pos pid g.
Proof.
  unfold transaction_rows. rewrite list_elem_of_In, in_flat_map. split.
  - intros (c' & Hc & (p' & Heq & Hp)%in_map_iff). injection Heq as -> ->.
    by rewrite !list_elem_of_In.
  - intros [Hc Hp]. exists c. rewrite <- list_elem_of_In. split; [done|].
    apply in_map_iff. exists p. by rewrite <- list_elem_of_In.
Qed.

Lemma create_transaction_rows_exact (i : Z) (pct : Q) (rows : list (nat * nat))
    (s : Graph.t * (nat → Q)) :
  (∀ row, In row rows →
          fst row < length (cards (fst s)) ∧ snd row < length (devices (fst s))) →
  let s' := foldl (λ s row,
                     (create_transaction_row i (Qltb (snd s 0) pct) (fst s)
                                             (fst row) (snd row),
                      shift (snd s))) s rows in
  (∃ created,
     transactions (fst s') = transactions (fst s) ++ created ∧
     length created = length rows ∧
     Forall (λ x, tx_id x = i) created) ∧
  using_edges (fst s') =
    using_edges (fst s)
    ++ imap (λ k row, (length (transactions (fst s)) + k, fst row)) rows ∧
  at_edges (fst s') =
    at_edges (fst s)
    ++ imap (λ k row, (length (transactions (fst s)) + k, snd row)) rows ∧
  devices (fst s') = devices (fst s) ∧
  map card_id (cards (fst s')) = map card_id (cards (fst s)).
Proof.
  revert s. induction rows as [|row rows IH]; intros s Hvalid; simpl.
  - rewrite !app_nil_r. split; [|done]. exists []. by rewrite app_nil_r.
  - destruct (Hvalid row (or_introl eq_refl)) as [Hc Hp].
    destruct (lookup_lt_is_Some_2 _ _ Hc) as [cn Hcn].
    destruct (lookup_lt_is_Some_2 _ _ Hp) as [pn Hpn].
    match goal with |- context [foldl _ ?s1 rows] => set (s1' := s1) end.
    set (x := mkTransaction i (card_compromised cn && Qltb (snd s 0) pct)).
    assert (Hg1 : fst s1' =
              Graph.mk (<[fst row := set_card_compromised (pos_compromised pn) cn]>
                          (cards (fst s)))
                       (devices (fst s))
                       (transactions (fst s) ++ [x])
                       (using_edges (fst s)
                          ++ [(length (transactions (fst s)), fst row)])
                       (at_edges (fst s)
                          ++ [(length (transactions (fst s)), snd row)])).
    { unfold s1'. simpl. unfold create_transaction_row. by rewrite Hcn, Hpn. }
    destruct (IH s1') as ((created & Ht & Hlen & Hid) & Hu & Ha & Hd & Hcs).
    { intros r Hr. rewrite Hg1. simpl. rewrite length_insert.
      apply Hvalid. by right. }
    rewrite Ht, Hu, Ha, Hd, Hcs, Hg1. simpl.
    rewrite length_app, <- !app_assoc. simpl.
    split; [|split; [|split; [|split; [done|]]]].
    + exists (x :: created). split; [done|]. split; [simpl; by rewrite Hlen|].
      by constructor.
    + do 2 f_equal; [f_equal; lia|]. apply imap_ext. intros k r _. simpl.
      f_equal. lia.
    + do 2 f_equal; [f_equal; lia|]. apply imap_ext. intros k r _. simpl.
      f_equal. lia.
    + change (map card_id) with (fmap (M:=list) card_id).
      rewrite list_fmap_insert. simpl. apply list_insert_id.
      by rewrite list_lookup_fmap, Hcn.
Qed.

(** The transaction statement creates one transaction per pair of a matching
    card and a matching device: none when the card id or the device id is
    unknown, several when an id is held by several nodes.  The transactions
    are appended with the given id; the [k]-th of them gets one Using
    relationship to the card and one At relationship to the device of the
    [k]-th pair, and no other relationship is created.  The statement
    creates no card and no device, changes no card id and no device. *)
Theorem create_transaction_per_match (cid pid i : Z) (pct : Q) (w : World) :
  ∃ w' created,
    execute (CreateTransaction cid pid i pct) w = (Returned tt, w') ∧
    (∀ c p, (c, p) ∈ transaction_rows cid pid (memgraph w) ↔
            c ∈ match_card cid (memgraph w) ∧ p ∈ match_pos pid (memgraph w)) ∧
    length (transaction_rows cid pid (memgraph w)) =
      length (match_card cid (memgraph w)) * length (match_pos pid (memgraph w)) ∧
    transactions (memgraph w') = transactions (memgraph w) ++ created ∧
    length created = length (transaction_rows cid pid (memgraph w)) ∧
    Forall (λ x, tx_id x = i) created ∧
    using_edges (memgraph w') =
      using_edges (memgraph w)
      ++ imap (λ k row, (length (transactions (memgraph w)) + k, fst row))
              (transaction_rows cid pid (memgraph w)) ∧
    at_edges (memgraph w') =
      at_edges (memgraph w)
      ++ imap (λ k row, (length (transactions (memgraph w)) + k, snd row))
              (transaction_rows cid pid (memgraph w)) ∧
    devices (memgraph w') = devices (memgraph w) ∧
    map card_id (cards (memgraph w')) = map card_id (cards (memgraph w)).
Proof.
  destruct (create_transaction_rows_exact i pct
              (transaction_rows cid pid (memgraph w)) (memgraph w, db_entropy w))
    as ((created & Ht & Hlen & Hid) & Hu & Ha & Hd & Hc).
  { intros row. apply transaction_rows_valid. }
  eexists _, created. split; [reflexivity|].
  split; [intros c p; apply in_transaction_rows|].
  split; [apply transaction_rows_length|].
  simpl. unfold create_transaction. simpl. done.
Qed.

(** ** Compromise Selector called out of range *)

(** [compromise_pos_devices] raises the [ValueError] of [sample] when
    [fraud_count] is negative or exceeds the number of devices of
    [range(pos_count)], before any statement is sent: the world is
    untouched. *)
Theorem compromise_pos_devices_out_of_range (pos_count fraud_count : Z)
    (w : World) :
  (fraud_count < 0 ∨ Z.max 0 pos_count < fraud_count)%Z →
  compromise_pos_devices pos_count fraud_count w =
    (Raised (ValueError from_sample), w).
Proof.
  intros Hk. unfold compromise_pos_devices, bind.
  rewrite sample_raises; [done|]. rewrite py_range_length. lia.
Qed.

Lemma compromise_pos_devices_out_of_range_witness :
  compromise_pos_devices 2 3 (mkWorld (population 1 2) [] (λ _, 0%Q) (λ _, 0)) =
    (Raised (ValueError from_sample),
     mkWorld (population 1 2) [] (λ _, 0%Q) (λ _, 0)).
Proof.
  apply (compromise_pos_devices_out_of_range 2 3). right. lia.
Defined.

(** ** Remediation Engine: no match, and repetition *)

Lemma scan_none {A} (P : A → bool) (l : list A) :
  (∀ a, a ∈ l → P a = false) → scan P l = [].
Proof.
  intros Hnone. apply elem_of_nil_inv. intros h (a & Ha & HP)%elem_of_scan.
  rewrite (Hnone a) in HP; [done|]. by eapply list_elem_of_lookup_2.
Qed.

(** [resolve_pos] for an id that no device carries changes nothing in the
    graph, and still answers 200. *)
Theorem resolve_pos_unknown_id (p : Z) (w : World) :
  (∀ d, d ∈ devices (memgraph w) → pos_id d ≠ p) →
  ∃ w',
    resolve_pos p w = (Returned (mkResponse body_duration 200), w') ∧
    memgraph w' = memgraph w.
Proof.
  intros Hnone. eexists. split; [apply resolve_pos_run|]. simpl.
  unfold resolve, match_pos. rewrite scan_none; [done|].
  intros d Hd. apply Z.eqb_neq. by apply Hnone.
Qed.

Lemma resolve_pos_unknown_id_witness :
  ∃ w',
    resolve_pos 7 (mkWorld (population 1 2) [] (λ _, 0%Q) (λ _, 0))
      = (Returned (mkResponse body_duration 200), w') ∧
    memgraph w' = population 1 2.
Proof.
  apply (resolve_pos_unknown_id 7 (mkWorld (population 1 2) [] (λ _, 0%Q) (λ _, 0))).
  intros d Hd. apply list_elem_of_In in Hd. simpl in Hd.
  destruct Hd as [<-|[<-|[]]]; simpl; lia.
Defined.

Lemma graph_eq (g1 g2 : Graph.t) :
  cards g1 = cards g2 → devices g1 = devices g2 →
  transactions g1 = transactions g2 →
  using_edges g1 = using_edges g2 → at_edges g1 = at_edges g2 →
  g1 = g2.
Proof. destruct g1, g2. simpl. by intros -> -> -> -> ->. Qed.

Lemma remediated_tx_resolve (id : Z) (g : Graph.t) (t : nat) :
  remediated_tx id (resolve id g) t ↔ remediated_tx id g t.
Proof.
  unfold remediated_tx. rewrite at_pos_resolve.
  by destruct (resolve_edges id g) as [-> _].
Qed.

Lemma remediated_card_resolve (id : Z) (g : Graph.t) (c : nat) :
  remediated_card id (resolve id g) c ↔ remediated_card id g c.
Proof.
  unfold remediated_card. destruct (resolve_edges id g) as [-> _].
  split; intros (t & Hat & Hus); exists t; (split; [|done]);
    by apply at_pos_resolve.
Qed.

Lemma resolve_transactions_lookup (id : Z) (g : Graph.t) (t : nat) :
  transactions (resolve id g) !! t =
    if decide (t ∈ map fst (flat_map (resolve_rows g) (match_pos id g)))
    then set_fraudReported false <$> transactions g !! t
    else transactions g !! t.
Proof.
  unfold resolve. rewrite foldl_resolve_device. simpl.
  by rewrite foldl_alter_lookup.
Qed.

Lemma resolve_cards_lookup (id : Z) (g : Graph.t) (c : nat) :
  cards (resolve id g) !! c =
    if decide (c ∈ map snd (flat_map (resolve_rows g) (match_pos id g)))
    then set_card_compromised false <$> cards g !! c
    else cards g !! c.
Proof.
  unfold resolve. rewrite foldl_resolve_device. simpl.
  by rewrite foldl_alter_lookup.
Qed.

Lemma resolve_resolve (id : Z) (g : Graph.t) :
  resolve id (resolve id g) = resolve id g.
Proof.
  destruct (resolve_edges id (resolve id g)) as [Hu Ha].
  apply graph_eq; [| | |done|done]; apply list_eq; intros h.
  - rewrite (resolve_cards_lookup id (resolve id g)).
    destruct (decide (h ∈ map snd (flat_map (resolve_rows (resolve id g))
                                             (match_pos id (resolve id g)))))
      as [Hin|Hnin]; [|done].
    apply elem_of_resolved_cards in Hin.
    apply (proj1 (remediated_card_resolve _ _ _)) in Hin.
    rewrite (proj1 (resolve_cards id g h) Hin).
    by destruct (cards g !! h).
  - rewrite !resolve_devices. destruct (devices g !! h) as [d|]; [|done]. simpl.
    destruct (Z.eqb_spec (pos_id d) id) as [Heq|Hne]; simpl.
    + by rewrite (proj2 (Z.eqb_eq _ _) Heq).
    + by rewrite (proj2 (Z.eqb_neq _ _) Hne).
  - rewrite (resolve_transactions_lookup id (resolve id g)).
    destruct (decide (h ∈ map fst (flat_map (resolve_rows (resolve id g))
                                             (match_pos id (resolve id g)))))
      as [Hin|Hnin]; [|done].
    apply elem_of_resolved_txs in Hin.
    apply (proj1 (remediated_tx_resolve _ _ _)) in Hin.
    rewrite (proj1 (resolve_transactions id g h) Hin).
    by destruct (transactions g !! h).
Qed.

(** Remediating the same device id a second time changes nothing more: the
    graph after two calls of [resolve_pos p] is the graph after one. *)
Theorem resolve_pos_idempotent (p : Z) (w : World) :
  memgraph (snd (resolve_pos p (snd (resolve_pos p w)))) =
  memgraph (snd (resolve_pos p w)).
Proof. rewrite !resolve_pos_run. simpl. apply resolve_resolve. Qed.

(** ** Compromise Selector on a fresh population *)

Lemma set_compromised_devices (d : Z) (g : Graph.t) :
  devices (set_compromised d g) =
    map (λ p, if Z.eqb (pos_id p) d then mkPos (pos_id p) true else p) (devices g).
Proof.
  unfold set_compromised. rewrite foldl_set_compromised. simpl.
  apply list_eq. intros h.
  change (map ?f) with (fmap (M:=list) f).
  rewrite foldl_alter_lookup, list_lookup_fmap by done.
  destruct (devices g !! h) as [p|] eqn:Hp; simpl; [|by case_decide].
  destruct (Z.eqb_spec (pos_id p) d) as [Hid|Hid].
  - rewrite decide_True; [done|]. apply elem_of_match_pos. by exists p.
  - rewrite decide_False; [done|].
    intros (p' & Hp' & Hid')%elem_of_match_pos. congruence.
Qed.

Lemma set_compromised_rest (d : Z) (g : Graph.t) :
  set_compromised d g =
    Graph.mk (cards g) (devices (set_compromised d g)) (transactions g)
             (using_edges g) (at_edges g).
Proof. unfold set_compromised. by rewrite foldl_set_compromised. Qed.

Lemma foldl_set_compromised_flags (devs : list Z) (cs : list Card)
    (ids : list Z) (f : Z → bool) (ts : list Transaction)
    (us ats : list (nat * nat)) :
  foldl (λ g d, set_compromised d g)
        (Graph.mk cs (map (λ id, mkPos id (f id)) ids) ts us ats) devs =
    Graph.mk cs (map (λ id, mkPos id (f id || bool_decide (id ∈ devs))) ids)
             ts us ats.
Proof.
  revert f. induction devs as [|d devs IH]; intros f; simpl.
  - f_equal. apply map_ext. intros id.
    by rewrite orb_false_r.
  - rewrite set_compromised_rest, set_compromised_devices. simpl.
    rewrite map_map. simpl.
    rewrite (map_ext _ (λ id, mkPos id (f id || Z.eqb id d))).
    + rewrite (IH (λ id, f id || Z.eqb id d)). f_equal.
      apply map_ext. intros id. f_equal. rewrite <- orb_assoc. f_equal.
      destruct (Z.eqb_spec id d) as [->|Hne]; simpl.
      * symmetry. apply bool_decide_eq_true_2, elem_of_cons. by left.
      * destruct (decide (id ∈ devs)) as [Hin|Hnin].
        -- rewrite !bool_decide_eq_true_2; [done| |done].
           apply elem_of_cons. by right.
        -- rewrite !bool_decide_eq_false_2; [done| |done].
           intros [?|?]%elem_of_cons; done.
    + intros id. destruct (Z.eqb id d); [|by rewrite orb_false_r].
      by rewrite orb_true_r.
Qed.

(** Whatever the store held, after the drop, [init_data] and the compromise
    of [devs] the graph is the fresh population with exactly the devices of
    [devs] flagged. *)
Lemma replay_seeding_exact (cc pc : Z) (devs : list Z) (g : Graph.t)
    (rs : nat → Q) :
  replay ([DropDatabase; CreateCards cc; CreateDevices pc]
          ++ map CompromisePos devs) (g, rs) = (seeded cc pc devs, rs).
Proof.
  unfold replay. rewrite foldl_app. simpl. rewrite init_population.
  fold (replay (map CompromisePos devs) (population cc pc, rs)).
  rewrite replay_compromise. f_equal. unfold population.
  by rewrite (foldl_set_compromised_flags devs _ _ (λ _, false)).
Qed.

Lemma seeded_devices_count (pc : Z) (devs : list Z) :
  NoDup devs → (∀ d, d ∈ devs → (0 ≤ d < pc)%Z) →
  length (List.filter pos_compromised (seeded_devices pc devs)) = length devs.
Proof.
  intros Hnd Hin. unfold seeded_devices.
  transitivity (length (filter (λ id, id ∈ devs) (py_range pc))).
  - induction (py_range pc) as [|id ids IH]; simpl; [done|].
    rewrite filter_cons. destruct (decide (id ∈ devs)) as [Hid|Hid].
    + rewrite bool_decide_eq_true_2 by done. simpl. by rewrite IH.
    + by rewrite bool_decide_eq_false_2 by done.
  - apply Permutation_length, NoDup_Permutation; [|done|].
    + apply NoDup_filter, py_range_NoDup.
    + intros x. rewrite list_elem_of_filter, elem_of_py_range.
      split; [by intros [? _]|]. intros Hx. split; [done|]. by apply Hin.
Qed.

(** Called on a fresh population with [0 <= fraud_count <= pos_count],
    [compromise_pos_devices] returns normally after one statement per
    selected device; the selected ids are distinct ids of
    [0 .. pos_count - 1], exactly the devices with these ids are compromised,
    so exactly [fraud_count] devices are, and no card is touched. *)
Theorem compromise_pos_devices_selects (cc pc fc : Z) (w : World) :
  (0 ≤ fc ≤ pc)%Z →
  memgraph w = population cc pc →
  ∃ devs w',
    compromise_pos_devices pc fc w = (Returned tt, w') ∧
    journal w' = journal w ++ map CompromisePos devs ∧
    Z.of_nat (length devs) = fc ∧ NoDup devs ∧
    (∀ d, d ∈ devs → (0 ≤ d < pc)%Z) ∧
    memgraph w' = seeded cc pc devs ∧
    Z.of_nat (length (List.filter pos_compromised (devices (memgraph w')))) = fc.
Proof.
  intros [Hfc Hle] Hpop.
  destruct (compromise_pos_devices_runs pc fc w Hle)
    as (devs & r & [e Hrun] & _ & Hpos).
  destruct (Hpos Hfc) as (-> & Hlen & Hnd & Hin).
  exists devs, (after (map CompromisePos devs) e w).
  split; [done|]. split; [done|]. split; [done|]. split; [done|].
  split; [done|].
  assert (Hg : memgraph (after (map CompromisePos devs) e w) = seeded cc pc devs).
  { cbn [memgraph after]. rewrite replay_compromise, Hpop. simpl.
    unfold population.
    by rewrite (foldl_set_compromised_flags devs _ _ (λ _, false)). }
  split; [done|]. rewrite Hg. simpl.
  by rewrite seeded_devices_count.
Qed.

Lemma compromise_pos_devices_selects_witness :
  ∃ devs w',
    compromise_pos_devices 3 2
      (mkWorld (population 1 3) [] (λ _, 0%Q) (λ _, 0)) = (Returned tt, w') ∧
    Z.of_nat (length devs) = 2%Z ∧
    memgraph w' = seeded 1 3 devs.
Proof.
  destruct (compromise_pos_devices_selects 1 3 2
              (mkWorld (population 1 3) [] (λ _, 0%Q) (λ _, 0)))
    as (devs & w' & Hrun & _ & Hlen & _ & _ & Hg & _); [lia | reflexivity |].
  exists devs, w'. repeat split; assumption.
Defined.

(** ** GenerateData: what a run leaves in the store *)

(** A negative [frauds] passes the guard of [generate_data] (it is not more
    than [pos]) and makes [sample] raise: the run ends with that
    [ValueError] after the drop and [init_data], so the store holds the fresh
    population, no device compromised, instead of what it held. *)
Theorem generate_data_negative_frauds (data : GenerateRequest) (w : World) :
  (req_frauds data < 0)%Z → (req_frauds data ≤ req_pos data)%Z →
  ∃ w',
    generate_data data w = (Raised (ValueError from_sample), w') ∧
    journal w' = journal w
                 ++ [DropDatabase; CreateCards (req_cards data);
                     CreateDevices (req_pos data)] ∧
    memgraph w' = population (req_cards data) (req_pos data).
Proof.
  intros Hneg Hle.
  destruct (generate_data_runs data w Hle)
    as (devs & draws & r & [e Hrun] & Hn & _).
  destruct (Hn Hneg) as (-> & -> & ->).
  exists (after (generation data [] []) e w).
  split; [done|]. split; [reflexivity|].
  cbn [memgraph after]. unfold generation, replay. simpl.
  apply init_population.
Qed.

Lemma generate_data_negative_frauds_witness :
  ∃ w',
    generate_data (mkGenerateRequest 1 2 5 (-1) 1%Q)
                  (mkWorld (Graph.mk [mkCard 9 true] [] [] [] []) []
                           (λ _, 0%Q) (λ _, 0))
      = (Raised (ValueError from_sample), w') ∧
    memgraph w' = population 1 2.
Proof.
  destruct (generate_data_negative_frauds (mkGenerateRequest 1 2 5 (-1) 1%Q)
              (mkWorld (Graph.mk [mkCard 9 true] [] [] [] []) []
                       (λ _, 0%Q) (λ _, 0)))
    as (w' & Hrun & _ & Hg); [simpl; lia | simpl; lia |].
  exists w'. split; assumption.
Defined.

Lemma replay_app (qs1 qs2 : list Statement) (s : Graph.t * (nat → Q)) :
  replay (qs1 ++ qs2) s = replay qs2 (replay qs1 s).
Proof. unfold replay. apply foldl_app. Qed.

Lemma seeded_dense (cc pc : Z) (devs : list Z) : dense cc pc (seeded cc pc devs).
Proof.
  unfold dense, seeded, seeded_devices. simpl. rewrite !map_map. simpl.
  by rewrite !map_id.
Qed.

(** A run that completes: the graph is the seeded population with the
    transaction statements executed on it. *)
Lemma generate_data_graph (data : GenerateRequest) (w : World) :
  (0 ≤ req_frauds data ≤ req_pos data)%Z →
  (req_transactions data ≤ 0 ∨ (1 ≤ req_cards data ∧ 1 ≤ req_pos data))%Z →
  ∃ devs draws w',
    generate_data data w = (Returned created, w') ∧
    Z.of_nat (length devs) = req_frauds data ∧ NoDup devs ∧
    (∀ d, d ∈ devs → (0 ≤ d < req_pos data)%Z) ∧
    length draws = Z.to_nat (req_transactions data) ∧
    Forall (in_range (req_cards data) (req_pos data)) draws ∧
    memgraph w' =
      fst (replay (tx_statements 0 (percent_f (req_reports data)) draws)
                  (seeded (req_cards data) (req_pos data) devs, db_entropy w)).
Proof.
  intros [Hfr Hle] Hcase.
  destruct (generate_data_runs data w Hle)
    as (devs & draws & r & [e Hrun] & _ & Hpos).
  destruct (Hpos Hfr) as ((Hlen & Hnd & Hin) & Hok & _).
  destruct (Hok Hcase) as (-> & Hdl & Hdr).
  exists devs, draws, (after (generation data devs draws) e w).
  repeat (split; [done|]).
  cbn [memgraph after]. unfold generation.
  by rewrite app_assoc, replay_app, replay_seeding_exact.
Qed.

(** A completed run leaves: cards with ids [0 .. cards - 1], devices with ids
    [0 .. pos - 1] of which exactly the [frauds] selected ones are
    compromised (the loop never writes a device), and exactly [transactions]
    transactions with ids [0 .. transactions - 1].  Transaction [i] has
    exactly one Using relationship, to the card with the [i]-th drawn card
    id, and exactly one At relationship, to the device with the [i]-th drawn
    device id; there is no other relationship.  Nothing of the previous
    content survives. *)
Theorem generate_data_result (data : GenerateRequest) (w : World) :
  (0 ≤ req_frauds data ≤ req_pos data)%Z →
  (0 ≤ req_transactions data)%Z →
  (req_transactions data = 0 ∨ (1 ≤ req_cards data ∧ 1 ≤ req_pos data))%Z →
  ∃ devs draws w',
    generate_data data w = (Returned created, w') ∧
    NoDup devs ∧ (∀ d, d ∈ devs → (0 ≤ d < req_pos data)%Z) ∧
    devices (memgraph w') = seeded_devices (req_pos data) devs ∧
    Z.of_nat (length (List.filter pos_compromised (devices (memgraph w'))))
      = req_frauds data ∧
    map card_id (cards (memgraph w')) = py_range (req_cards data) ∧
    map tx_id (transactions (memgraph w')) = py_range (req_transactions data) ∧
    Z.of_nat (length draws) = req_transactions data ∧
    Forall (in_range (req_cards data) (req_pos data)) draws ∧
    using_edges (memgraph w') = imap (λ i d, (i, Z.to_nat (fst d))) draws ∧
    at_edges (memgraph w') = imap (λ i d, (i, Z.to_nat (snd d))) draws.
Proof.
  intros Hfr Htx Hcase.
  destruct (generate_data_graph data w Hfr)
    as (devs & draws & w' & Hrun & Hlen & Hnd & Hin & Hdl & Hdr & Hg); [lia|].
  destruct (replay_transactions_dense (req_cards data) (req_pos data)
              (percent_f (req_reports data)) draws 0
              (seeded (req_cards data) (req_pos data) devs) (db_entropy w)
              (seeded_dense _ _ _) Hdr)
    as ([Hc _] & Hdev & Htxs & Hus & Hat).
  rewrite <- Hg in Hc, Hdev, Htxs, Hus, Hat. simpl in Hdev, Htxs, Hus, Hat.
  exists devs, draws, w'. split; [done|]. split; [done|]. split; [done|].
  split; [done|]. split.
  { rewrite Hdev, seeded_devices_count by done. done. }
  split; [done|]. split.
  { rewrite Htxs, Hdl. done. }
  split; [lia|]. split; [done|]. done.
Qed.

Lemma generate_data_result_witness :
  ∃ w',
    generate_data (mkGenerateRequest 2 3 4 2 1%Q)
                  (mkWorld (Graph.mk [mkCard 9 true] [] [] [] []) []
                           (λ _, 0%Q) (λ n, n))
      = (Returned created, w') ∧
    Z.of_nat (length (List.filter pos_compromised (devices (memgraph w')))) = 2%Z ∧
    map tx_id (transactions (memgraph w')) = [0; 1; 2; 3]%Z ∧
    length (using_edges (memgraph w')) = 4 ∧
    length (at_edges (memgraph w')) = 4.
Proof.
  destruct (generate_data_result (mkGenerateRequest 2 3 4 2 1%Q)
              (mkWorld (Graph.mk [mkCard 9 true] [] [] [] []) []
                       (λ _, 0%Q) (λ n, n)))
    as (devs & draws & w' & Hrun & _ & _ & _ & Hcount & _ & Htx & Hlen & _ &
        Hus & Hat);
    [simpl; lia | simpl; lia | right; simpl; lia |].
  exists w'. split; [exact Hrun|]. split; [exact Hcount|]. split; [exact Htx|].
  rewrite Hus, Hat, !length_imap. simpl in Hlen. lia.
Defined.

(** ** What the flags of a generated graph mean *)

Lemma explained_step (g : Graph.t) (i : Z) (trial : bool) (c p : nat)
    (cn : Card) (pn : Pos) :
  cards g !! c = Some cn → devices g !! p = Some pn →
  compromise_explained g → reports_explained g →
  let g1 := Graph.mk
              (<[c := mkCard (card_id cn) (pos_compromised pn)]> (cards g))
              (devices g)
              (transactions g ++ [mkTransaction i (card_compromised cn && trial)])
              (using_edges g ++ [(length (transactions g), c)])
              (at_edges g ++ [(length (transactions g), p)]) in
  compromise_explained g1 ∧ reports_explained g1.
Proof.
  intros Hcn Hpn Hce Hre g1.
  assert (Hlift : ∀ t c', used_at_compromised g t c' → used_at_compromised g1 t c').
  { intros t c' (p' & pn' & Hu & Ha & Hd & Hf). exists p', pn'. unfold g1. simpl.
    repeat split; try done; apply elem_of_app; by left. }
  assert (Hnew : pos_compromised pn = true →
                 used_at_compromised g1 (length (transactions g)) c).
  { intros Hf. exists p, pn. unfold g1. simpl.
    repeat split; try done; apply elem_of_app; right; apply elem_of_cons; by left. }
  split.
  - intros c' cn' Hc' Hf. unfold g1 in Hc' |- *. simpl in Hc' |- *.
    rewrite length_app. simpl.
    destruct (decide (c' = c)) as [->|Hne].
    + rewrite list_lookup_insert_eq in Hc' by by eapply lookup_lt_Some.
      injection Hc' as <-. simpl in Hf.
      exists (length (transactions g)). split; [lia|]. by apply Hnew.
    + rewrite list_lookup_insert_ne in Hc' by done.
      destruct (Hce c' cn' Hc' Hf) as (t & Ht & Hused).
      exists t. split; [lia|]. by apply Hlift.
  - intros t x Hx Hf. unfold g1 in Hx. simpl in Hx.
    destruct (decide (t < length (transactions g))) as [Hlt|Hge].
    + rewrite lookup_app_l in Hx by done.
      destruct (Hre t x Hx Hf) as (c' & t0 & Ht0 & Hu & Hused).
      exists c', t0. split; [done|]. split; [|by apply Hlift].
      unfold g1. simpl. apply elem_of_app. by left.
    + rewrite lookup_app_r in Hx by lia.
      destruct (t - length (transactions g)) as [|n] eqn:Hn; [|by destruct n].
      injection Hx as <-. simpl in Hf. apply andb_prop in Hf as [Hcomp _].
      destruct (Hce c cn Hcn Hcomp) as (t0 & Ht0 & Hused).
      exists c, t0. split; [lia|]. split; [|by apply Hlift].
      unfold g1. simpl. apply elem_of_app. right. apply elem_of_cons. left.
      f_equal. lia.
Qed.

Lemma replay_transactions_explained (cc pc : Z) (pct : Q)
    (draws : list (Z * Z)) (k : nat) (g : Graph.t) (rs : nat → Q) :
  dense cc pc g → Forall (in_range cc pc) draws →
  compromise_explained g → reports_explained g →
  compromise_explained (fst (replay (tx_statements k pct draws) (g, rs))) ∧
  reports_explained (fst (replay (tx_statements k pct draws) (g, rs))).
Proof.
  intros Hd Hin. revert k g rs Hd.
  induction Hin as [|d draws Hr Hin IH]; intros k g rs Hd Hce Hre; [done|].
  destruct (exec_transaction_dense cc pc d (Z.of_nat k) pct g rs Hd Hr)
    as (cn & pn & Hcn & Hpn & Hexec).
  destruct (explained_step g (Z.of_nat k) (Qltb (rs 0) pct) _ _ cn pn
              Hcn Hpn Hce Hre) as [Hce1 Hre1].
  assert (Hone : Forall (in_range cc pc) [d]) by (constructor; [exact Hr|constructor]).
  pose proof (replay_transactions_dense cc pc pct [d] k g rs Hd Hone)
    as (Hd1 & _).
  unfold replay in Hd1 |- *. simpl in Hd1 |- *. simpl in Hexec.
  rewrite Hexec in Hd1 |- *. simpl in Hd1.
  apply (IH (S k)); done.
Qed.

Lemma seeded_explained (cc pc : Z) (devs : list Z) :
  compromise_explained (seeded cc pc devs) ∧ reports_explained (seeded cc pc devs).
Proof.
  split.
  - intros c cn Hc Hf. unfold seeded in Hc. simpl in Hc.
    change (map ?f) with (fmap (M:=list) f) in Hc.
    rewrite list_lookup_fmap in Hc.
    destruct (py_range cc !! c); [|done]. injection Hc as <-. done.
  - intros t x Hx. done.
Qed.

(** After a completed run, every card whose [compromised] is true was used
    by a transaction of the run at a compromised device. *)
Theorem generate_data_explains_compromise (data : GenerateRequest) (w : World) :
  (0 ≤ req_frauds data ≤ req_pos data)%Z →
  (req_transactions data ≤ 0 ∨ (1 ≤ req_cards data ∧ 1 ≤ req_pos data))%Z →
  ∃ w',
    generate_data data w = (Returned created, w') ∧
    ∀ c cn, cards (memgraph w') !! c = Some cn → card_compromised cn = true →
            ∃ t, t < length (transactions (memgraph w')) ∧
                 used_at_compromised (memgraph w') t c.
Proof.
  intros Hfr Hcase.
  destruct (generate_data_graph data w Hfr Hcase)
    as (devs & draws & w' & Hrun & _ & _ & _ & _ & Hdr & Hg).
  exists w'. split; [done|]. rewrite Hg.
  destruct (seeded_explained (req_cards data) (req_pos data) devs) as [Hce Hre].
  apply (replay_transactions_explained (req_cards data) (req_pos data));
    try done. apply seeded_dense.
Qed.

Lemma generate_data_explains_compromise_witness :
  ∃ w',
    generate_data (mkGenerateRequest 2 3 4 2 1%Q)
                  (mkWorld Graph.empty [] (λ _, 0%Q) (λ n, n))
      = (Returned created, w') ∧
    ∀ c cn, cards (memgraph w') !! c = Some cn → card_compromised cn = true →
            ∃ t, t < length (transactions (memgraph w')) ∧
                 used_at_compromised (memgraph w') t c.
Proof.
  apply (generate_data_explains_compromise (mkGenerateRequest 2 3 4 2 1%Q)
           (mkWorld Graph.empty [] (λ _, 0%Q) (λ n, n)));
    [simpl; lia | right; simpl; lia].
Defined.

(** After a completed run, every transaction with [fraudReported = true]
    uses a card that an earlier transaction of the run used at a compromised
    device: a report always has a device to be traced to. *)
Theorem generate_data_explains_reports (data : GenerateRequest) (w : World) :
  (0 ≤ req_frauds data ≤ req_pos data)%Z →
  (req_transactions data ≤ 0 ∨ (1 ≤ req_cards data ∧ 1 ≤ req_pos data))%Z →
  ∃ w',
    generate_data data w = (Returned created, w') ∧
    ∀ t x, transactions (memgraph w') !! t = Some x → fraudReported x = true →
           ∃ c t0, t0 < t ∧ (t, c) ∈ using_edges (memgraph w') ∧
                   used_at_compromised (memgraph w') t0 c.
Proof.
  intros Hfr Hcase.
  destruct (generate_data_graph data w Hfr Hcase)
    as (devs & draws & w' & Hrun & _ & _ & _ & _ & Hdr & Hg).
  exists w'. split; [done|]. rewrite Hg.
  destruct (seeded_explained (req_cards data) (req_pos data) devs) as [Hce Hre].
  apply (replay_transactions_explained (req_cards data) (req_pos data));
    try done. apply seeded_dense.
Qed.

Lemma generate_data_explains_reports_witness :
  ∃ w',
    generate_data (mkGenerateRequest 2 3 4 2 1%Q)
                  (mkWorld Graph.empty [] (λ _, 0%Q) (λ n, n))
      = (Returned created, w') ∧
    ∀ t x, transactions (memgraph w') !! t = Some x → fraudReported x = true →
           ∃ c t0, t0 < t ∧ (t, c) ∈ using_edges (memgraph w') ∧
                   used_at_compromised (memgraph w') t0 c.
Proof.
  apply (generate_data_explains_reports (mkGenerateRequest 2 3 4 2 1%Q)
           (mkWorld Graph.empty [] (λ _, 0%Q) (λ n, n)));
    [simpl; lia | right; simpl; lia].
Defined.

(** With [frauds = 0] a completed run compromises nothing and reports
    nothing, whatever [reports] is: every device, every card and every
    transaction has its flag false. *)
Theorem generate_data_without_frauds (data : GenerateRequest) (w : World) :
  req_frauds data = 0%Z → (0 ≤ req_pos data)%Z →
  (req_transactions data ≤ 0 ∨ (1 ≤ req_cards data ∧ 1 ≤ req_pos data))%Z →
  ∃ w',
    generate_data data w = (Returned created, w') ∧
    Forall (λ d, pos_compromised d = false) (devices (memgraph w')) ∧
    Forall (λ c, card_compromised c = false) (cards (memgraph w')) ∧
    Forall (λ x, fraudReported x = false) (transactions (memgraph w')).
Proof.
  intros Hzero Hpos Hcase.
  destruct (generate_data_graph data w)
    as (devs & draws & w' & Hrun & Hlen & _ & _ & _ & Hdr & Hg); [lia|done|].
  assert (devs = []) as -> by (destruct devs; [done|simpl in Hlen; lia]).
  set (g0 := seeded (req_cards data) (req_pos data) []) in *.
  destruct (replay_transactions_dense (req_cards data) (req_pos data)
              (percent_f (req_reports data)) draws 0 g0 (db_entropy w)
              (seeded_dense _ _ _) Hdr) as (_ & Hdev & _).
  destruct (replay_transactions_explained (req_cards data) (req_pos data)
              (percent_f (req_reports data)) draws 0 g0 (db_entropy w)
              (seeded_dense _ _ _) Hdr) as [Hce Hre];
    [apply seeded_explained | apply seeded_explained |].
  rewrite <- Hg in Hdev, Hce, Hre.
  assert (Hclean : ∀ p pn, devices (memgraph w') !! p = Some pn →
                           pos_compromised pn = false).
  { intros p pn Hp. rewrite Hdev in Hp. unfold g0, seeded, seeded_devices in Hp.
    simpl in Hp. change (map ?f) with (fmap (M:=list) f) in Hp.
    rewrite list_lookup_fmap in Hp.
    destruct (py_range (req_pos data) !! p); [|done]. by injection Hp as <-. }
  assert (Hnone : ∀ t c, ¬ used_at_compromised (memgraph w') t c).
  { intros t c (p & pn & _ & _ & Hp & Hf). rewrite (Hclean p pn Hp) in Hf. done. }
  exists w'. split; [done|]. split; [|split]; apply Forall_lookup.
  - intros p pn Hp. by eapply Hclean.
  - intros c cn Hc. destruct (card_compromised cn) eqn:Hf; [|done].
    destruct (Hce c cn Hc Hf) as (t & _ & Hused). by destruct (Hnone t c).
  - intros t x Hx. destruct (fraudReported x) eqn:Hf; [|done].
    destruct (Hre t x Hx Hf) as (c & t0 & _ & _ & Hused). by destruct (Hnone t0 c).
Qed.

Lemma generate_data_without_frauds_witness :
  ∃ w',
    generate_data (mkGenerateRequest 2 3 4 0 1%Q)
                  (mkWorld Graph.empty [] (λ _, 0%Q) (λ n, n))
      = (Returned created, w') ∧
    Forall (λ c, card_compromised c = false) (cards (memgraph w')) ∧
    Forall (λ x, fraudReported x = false) (transactions (memgraph w')).
Proof.
  destruct (generate_data_without_frauds (mkGenerateRequest 2 3 4 0 1%Q)
              (mkWorld Graph.empty [] (λ _, 0%Q) (λ n, n)))
    as (w' & Hrun & _ & Hc & Ht); [reflexivity | simpl; lia | right; simpl; lia |].
  exists w'. repeat split; assumption.
Defined.

(** ** Fraud Query Engine: further properties *)

Lemma insert_desc_Permutation (r : PosFrauds) (l : list PosFrauds) :
  insert_desc r l ≡ₚ r :: l.
Proof.
  induction l as [|r' l IH]; simpl; [done|].
  destruct (Nat.ltb _ _); [done|]. rewrite IH. apply Permutation_swap.
Qed.

Lemma order_by_desc_Permutation (l : list PosFrauds) : order_by_desc l ≡ₚ l.
Proof.
  induction l as [|r l IH]; simpl; [done|].
  by rewrite insert_desc_Permutation, IH.
Qed.

Lemma filter_keys_NoDup (f : PosFrauds → bool) (l : list PosFrauds) :
  NoDup (map pos l) → NoDup (map pos (List.filter f l)).
Proof.
  induction l as [|r l IH]; simpl; [done|]. intros Hnd.
  apply NoDup_cons in Hnd as [Hnotin Hnd].
  destruct (f r); simpl; [|by apply IH].
  apply NoDup_cons. split; [|by apply IH].
  intros Hin. apply Hnotin.
  apply list_elem_of_In, in_map_iff in Hin as (x & Hx & [Hin _]%filter_In).
  apply list_elem_of_In, in_map_iff. by exists x.
Qed.

(** The rows of [get_compromised_pos] name pairwise distinct device ids, and
    each of them is the id of a device of the graph. *)
Theorem get_compromised_pos_distinct_devices (w : World) :
  ∃ rows w',
    get_compromised_pos w = (Returned rows, w') ∧
    NoDup (map pos rows) ∧
    ∀ r, r ∈ rows → ∃ d, d ∈ devices (memgraph w) ∧ pos_id d = pos r.
Proof.
  eexists _, _. split; [reflexivity|]. simpl. split.
  - unfold match_compromised_pos.
    change (map pos) with (fmap (M:=list) pos).
    rewrite order_by_desc_Permutation.
    apply filter_keys_NoDup, NoDup_ListNoDup, group_count_NoDup.
  - intros r [Hgt Hcount]%list_elem_of_In%in_match_compromised_pos.
    unfold matches_at in Hcount.
    assert (Hin : In (pos r) (fraud_paths (memgraph w))).
    { apply (count_occ_In Z.eq_dec). lia. }
    apply in_fraud_paths in Hin
      as (t & x & e1 & c & e2 & t2 & p & d & _ & _ & _ & _ & _ & _ & Hd & Hid).
    exists d. split; [|done]. by eapply list_elem_of_lookup_2.
Qed.

(** On a graph without any reported transaction both fraud queries answer
    with an empty collection, not with an error. *)
Theorem fraud_queries_without_reports (p : Z) (w : World) :
  (∀ x, x ∈ transactions (memgraph w) → fraudReported x = false) →
  fst (get_compromised_pos w) = Returned [] ∧
  fst (host p w) = Returned (mkPosGraphResponse [] 200).
Proof.
  intros Hnone. unfold get_compromised_pos, execute_and_fetch, host. simpl.
  unfold match_compromised_pos, fraud_paths, match_pos_graph.
  by rewrite (scan_none fraudReported _ Hnone).
Qed.

Lemma fraud_queries_without_reports_witness :
  fst (get_compromised_pos (mkWorld (population 1 2) [] (λ _, 0%Q) (λ _, 0)))
    = Returned [] ∧
  fst (host 0 (mkWorld (population 1 2) [] (λ _, 0%Q) (λ _, 0)))
    = Returned (mkPosGraphResponse [] 200).
Proof.
  apply (fraud_queries_without_reports 0
           (mkWorld (population 1 2) [] (λ _, 0%Q) (λ _, 0))).
  intros x Hx. apply list_elem_of_In in Hx. destruct Hx.
Defined.

(** ** The /pos-graph route *)

Lemma in_match_pos_graph (id : Z) (g : Graph.t) (ch : Chain) :
  In ch (match_pos_graph id g) ↔ is_chain id g ch.
Proof.
  unfold match_pos_graph. rewrite in_flat_map. split.
  - intros (t & Ht & H0).
    apply list_elem_of_In, elem_of_scan in Ht as (x1 & Hx1 & Hf).
    rewrite Hx1 in H0.
    apply in_flat_map in H0 as ([e0 [t0 h1]] & [He0 Ht0]%in_out_of & H1).
    simpl in *. subst t0.
    destruct (devices g !! h1) as [d1|] eqn:Hd1; [|done].
    apply in_flat_map in H1 as ([e1 [t1 c]] & [He1 Ht1]%in_out_of & H2).
    simpl in *. subst t1.
    destruct (cards g !! c) as [cn|] eqn:Hcn; [|done].
    apply in_flat_map in H2 as ([e2 [t' c']] & [He2 Hc']%in_into & H3).
    simpl in *. subst c'.
    destruct (Nat.eqb_spec e2 e1) as [|Hne21]; [done|].
    destruct (transactions g !! t') as [x2|] eqn:Hx2; [|done].
    apply in_flat_map in H3 as ([e3 [t3 h2]] & [He3 Ht3]%in_out_of & H4).
    simpl in *. subst t3.
    destruct (Nat.eqb_spec e3 e0) as [|Hne30]; [done|].
    destruct (devices g !! h2) as [d2|] eqn:Hd2; [|done].
    destruct (Z.eqb_spec (pos_id d2) id) as [Hid|]; [|done].
    destruct H4 as [<-|[]].
    exists t, e0, h1, e1, c, e2, t', e3, h2. simpl. repeat split; done.
  - intros (t & e0 & h1 & e1 & c & e2 & t' & e3 & h2 &
            Hx1 & Hf & He0 & Hd1 & He1 & Hcn & He2 & Hne21 & Hx2 & He3 &
            Hne30 & Hd2 & Hid).
    exists t. split.
    { apply list_elem_of_In, elem_of_scan. by exists (chain_t1 ch). }
    rewrite Hx1.
    apply in_flat_map. exists (e0, (t, h1)). split; [by apply in_out_of|].
    simpl. rewrite Hd1.
    apply in_flat_map. exists (e1, (t, c)). split; [by apply in_out_of|].
    simpl. rewrite Hcn.
    apply in_flat_map. exists (e2, (t', c)). split; [by apply in_into|].
    simpl. destruct (Nat.eqb_spec e2 e1) as [|_]; [done|]. rewrite Hx2.
    apply in_flat_map. exists (e3, (t', h2)). split; [by apply in_out_of|].
    simpl. destruct (Nat.eqb_spec e3 e0) as [|_]; [done|]. rewrite Hd2.
    rewrite (proj2 (Z.eqb_eq _ _) Hid). left. by destruct ch.
Qed.

(** [host] answers 200, leaves the store as it was, and its records are
    exactly the chains of the graph that end at a device with the requested
    id: in every record [t1] is reported and [p2] carries the requested id,
    and no such chain is missing. *)
Theorem host_returns_the_chains (p : Z) (w : World) :
  ∃ out,
    host p w = (Returned (mkPosGraphResponse out 200), w) ∧
    (∀ ch, ch ∈ out ↔ is_chain p (memgraph w) ch) ∧
    (∀ ch, ch ∈ out →
           fraudReported (chain_t1 ch) = true ∧ pos_id (chain_p2 ch) = p).
Proof.
  exists (match_pos_graph p (memgraph w)). split; [done|]. split.
  - intros ch. by rewrite list_elem_of_In, in_match_pos_graph.
  - intros ch Hch%list_elem_of_In%in_match_pos_graph.
    destruct Hch as (t & e0 & h1 & e1 & c & e2 & t' & e3 & h2 &
                     _ & Hf & _ & _ & _ & _ & _ & _ & _ & _ & _ & _ & Hid).
    done.
Qed.

(** A chain ending at a device id is one of the matches the ranking counts
    for that id. *)
Lemma is_chain_fraud_path (id : Z) (g : Graph.t) (ch : Chain) :
  is_chain id g ch → In id (fraud_paths g).
Proof.
  intros (t & e0 & h1 & e1 & c & e2 & t' & e3 & h2 &
          Hx1 & Hf & He0 & Hd1 & He1 & Hcn & He2 & Hne21 & Hx2 & He3 &
          Hne30 & Hd2 & Hid).
  apply in_fraud_paths.
  exists t, (chain_t1 ch), e1, c, e2, t', h2, (chain_p2 ch).
  repeat split; try done. by eapply list_elem_of_lookup_2.
Qed.

(** Whenever [host p] returns a record, the ranking query counts at least
    one match for the device id [p]. *)
Theorem host_record_is_counted (p : Z) (w w' : World) (out : list Chain)
    (ch : Chain) :
  host p w = (Returned (mkPosGraphResponse out 200), w') →
  ch ∈ out →
  0 < matches_at (memgraph w) p.
Proof.
  intros Hrun Hch. unfold host in Hrun. injection Hrun as <- _.
  apply list_elem_of_In, in_match_pos_graph in Hch.
  unfold matches_at. apply count_occ_In. by eapply is_chain_fraud_path.
Qed.

Lemma host_record_is_counted_witness :
  0 < matches_at
        (Graph.mk [mkCard 0 true] [mkPos 0 true; mkPos 1 false]
                  [mkTransaction 0 false; mkTransaction 1 true]
                  [(0, 0); (1, 0)] [(0, 0); (1, 1)]) 0.
Proof.
  apply (host_record_is_counted 0
           (mkWorld (Graph.mk [mkCard 0 true] [mkPos 0 true; mkPos 1 false]
                              [mkTransaction 0 false; mkTransaction 1 true]
                              [(0, 0); (1, 0)] [(0, 0); (1, 1)])
                    [] (λ _, 0%Q) (λ _, 0))
           (mkWorld (Graph.mk [mkCard 0 true] [mkPos 0 true; mkPos 1 false]
                              [mkTransaction 0 false; mkTransaction 1 true]
                              [(0, 0); (1, 0)] [(0, 0); (1, 1)])
                    [] (λ _, 0%Q) (λ _, 0))
           [mkChain (mkPos 1 false) (mkTransaction 1 true) (mkCard 0 true)
                    (mkTransaction 0 false) (mkPos 0 true)]
           (mkChain (mkPos 1 false) (mkTransaction 1 true) (mkCard 0 true)
                    (mkTransaction 0 false) (mkPos 0 true))).
  - reflexivity.
  - apply list_elem_of_In. simpl. auto.
Defined.

(** On the graph of a generation run every match of the ranking pattern
    extends to a chain: the reported transaction has its own At
    relationship, to an existing device. *)
Lemma generated_match_has_chain (cc pc : Z) (pct : Q) (draws : list (Z * Z))
    (devs : list Z) (rs : nat → Q) (k : Z) :
  Forall (in_range cc pc) draws →
  In k (fraud_paths
          (fst (replay (tx_statements 0 pct draws) (seeded cc pc devs, rs)))) →
  ∃ ch, is_chain k
          (fst (replay (tx_statements 0 pct draws) (seeded cc pc devs, rs))) ch.
Proof.
  intros Hdr.
  destruct (replay_transactions_dense cc pc pct draws 0 (seeded cc pc devs) rs
              (seeded_dense _ _ _) Hdr) as ([Hc Hp] & _ & Htx & Hus & Hat).
  set (g' := fst (replay (tx_statements 0 pct draws) (seeded cc pc devs, rs))) in *.
  simpl in Htx, Hus, Hat.
  assert (Hlt : length (transactions g') = length draws).
  { by rewrite <- (length_map tx_id), Htx, length_map, length_seq. }
  assert (Hlc : length (cards g') = Z.to_nat cc).
  { by rewrite <- (length_map card_id), Hc, py_range_length. }
  assert (Hlp : length (devices g') = Z.to_nat pc).
  { by rewrite <- (length_map pos_id), Hp, py_range_length. }
  intros (t & x & e1 & c & e2 & t2 & p & d &
          Hx & Hf & He1 & He2 & Hne & [e3 He3]%list_elem_of_lookup_1 & Hd & Hid)
    %in_fraud_paths.
  rewrite Hus, list_lookup_imap in He1, He2. rewrite Hat, list_lookup_imap in He3.
  destruct (draws !! e1) as [d1|] eqn:Hd1; [|done].
  destruct (draws !! e2) as [d2|] eqn:Hd2; [|done].
  destruct (draws !! e3) as [d3|] eqn:Hd3; [|done].
  simpl in He1, He2, He3.
  injection He1 as <- <-. injection He2 as <- Hc2. injection He3 as He32 <-.
  subst e3.
  destruct (proj1 (Forall_lookup _ _) Hdr _ _ Hd1) as [Hr1c Hr1p].
  destruct (lookup_lt_is_Some_2 (devices g') (Z.to_nat (snd d1))) as [dv1 Hdv1];
    [lia|].
  destruct (lookup_lt_is_Some_2 (cards g') (Z.to_nat (fst d1))) as [cn Hcn];
    [lia|].
  destruct (lookup_lt_is_Some_2 (transactions g') e2) as [x2 Hx2].
  { rewrite Hlt. by eapply lookup_lt_Some. }
  exists (mkChain dv1 x cn x2 d).
  exists e1, e1, (Z.to_nat (snd d1)), e1, (Z.to_nat (fst d1)), e2, e2, e2,
         (Z.to_nat (snd d3)).
  simpl. rewrite Hus, Hat, !list_lookup_imap, Hd1, Hd2. simpl.
  rewrite Hd2 in Hd3. injection Hd3 as <-.
  repeat split; try done. by rewrite Hc2.
Qed.

(** After a completed generation run, every device id that
    [get_compromised_pos] returns has a non-empty answer from [host]: the
    ranking never points at a device without a chain to show. *)
Theorem ranked_devices_have_chains (data : GenerateRequest) (w : World) :
  (0 ≤ req_frauds data ≤ req_pos data)%Z →
  (req_transactions data ≤ 0 ∨ (1 ≤ req_cards data ∧ 1 ≤ req_pos data))%Z →
  ∃ w',
    generate_data data w = (Returned created, w') ∧
    ∀ rows w'', get_compromised_pos w' = (Returned rows, w'') →
      ∀ r, r ∈ rows →
        ∃ out ch, host (pos r) w'' = (Returned (mkPosGraphResponse out 200), w'') ∧
                  ch ∈ out.
Proof.
  intros Hfr Hcase.
  destruct (generate_data_graph data w Hfr Hcase)
    as (devs & draws & w' & Hrun & _ & _ & _ & _ & Hdr & Hg).
  exists w'. split; [done|]. intros rows w'' Hq r Hr.
  unfold get_compromised_pos, execute_and_fetch in Hq.
  injection Hq as <- <-.
  apply list_elem_of_In, in_match_compromised_pos in Hr as [Hgt Hcount].
  assert (Hin : In (pos r) (fraud_paths (memgraph w'))).
  { apply (count_occ_In Z.eq_dec). unfold matches_at in Hcount. lia. }
  rewrite Hg in Hin.
  destruct (generated_match_has_chain _ _ _ _ _ _ _ Hdr Hin) as [ch Hch].
  rewrite <- Hg in Hch.
  exists (match_pos_graph (pos r) (memgraph w')), ch. split; [done|].
  by apply list_elem_of_In, in_match_pos_graph.
Qed.

Lemma ranked_devices_have_chains_witness :
  ∃ w',
    generate_data (mkGenerateRequest 1 2 4 2 1%Q)
                  (mkWorld Graph.empty [] (λ _, 0%Q) (λ n, n))
      = (Returned created, w') ∧
    ∀ rows w'', get_compromised_pos w' = (Returned rows, w'') →
      ∀ r, r ∈ rows →
        ∃ out ch, host (pos r) w'' = (Returned (mkPosGraphResponse out 200), w'') ∧
                  ch ∈ out.
Proof.
  apply (ranked_devices_have_chains (mkGenerateRequest 1 2 4 2 1%Q)
           (mkWorld Graph.empty [] (λ _, 0%Q) (λ n, n)));
    [simpl; lia | right; simpl; lia].
Defined.

(** ** The propagation law of the transaction statement *)

Lemma latest_use_step (g : Graph.t) (i : Z) (trial : bool) (c p : nat)
    (cn : Card) (pn : Pos) :
  cards g !! c = Some cn → devices g !! p = Some pn →
  flag_follows_latest_use g →
  (∀ t c', (t, c') ∈ using_edges g → t < length (transactions g)) →
  let g1 := Graph.mk
              (<[c := mkCard (card_id cn) (pos_compromised pn)]> (cards g))
              (devices g)
              (transactions g ++ [mkTransaction i (card_compromised cn && trial)])
              (using_edges g ++ [(length (transactions g), c)])
              (at_edges g ++ [(length (transactions g), p)]) in
  flag_follows_latest_use g1 ∧
  (∀ t c', (t, c') ∈ using_edges g1 → t < length (transactions g1)).
Proof.
  intros Hcn Hpn Hlaw Hbound g1.
  assert (Hin : ∀ t c', (t, c') ∈ using_edges g1 →
                        (t, c') ∈ using_edges g ∨
                        (t = length (transactions g) ∧ c' = c)).
  { intros t c' [?|Hnew]%elem_of_app; [by left|right].
    apply elem_of_cons in Hnew as [Heq|[]%elem_of_nil]. by injection Heq. }
  split.
  - intros c' cn' Hc'. unfold g1 in Hc'. simpl in Hc'.
    destruct (decide (c' = c)) as [->|Hne].
    + rewrite list_lookup_insert_eq in Hc' by by eapply lookup_lt_Some.
      injection Hc' as <-. right.
      exists (length (transactions g)), p, pn. unfold g1. simpl.
      split; [split|split; [|done]].
      * apply elem_of_app. right. apply elem_of_cons. by left.
      * intros t' [Hold|[-> _]]%Hin; [|done]. apply Hbound in Hold. lia.
      * apply elem_of_app. right. apply elem_of_cons. by left.
    + rewrite list_lookup_insert_ne in Hc' by done.
      destruct (Hlaw c' cn' Hc') as [[Hunused Hf]|(t & p' & pn' & [Hu Hmax] & Ha & Hd & Hf)].
      * left. split; [|done]. intros t [Hold|[_ ->]]%Hin; [|done].
        by apply (Hunused t).
      * right. exists t, p', pn'. unfold g1. simpl.
        split; [split|split; [|done]].
        -- apply elem_of_app. by left.
        -- intros t' [Hold|[_ ->]]%Hin; [by apply Hmax|done].
        -- apply elem_of_app. by left.
  - intros t c' [Hold|[-> _]]%Hin; unfold g1; simpl; rewrite length_app; simpl.
    + apply Hbound in Hold. lia.
    + lia.
Qed.

Lemma replay_transactions_latest_use (cc pc : Z) (pct : Q)
    (draws : list (Z * Z)) (k : nat) (g : Graph.t) (rs : nat → Q) :
  dense cc pc g → Forall (in_range cc pc) draws →
  flag_follows_latest_use g →
  (∀ t c', (t, c') ∈ using_edges g → t < length (transactions g)) →
  flag_follows_latest_use (fst (replay (tx_statements k pct draws) (g, rs))).
Proof.
  intros Hd Hin. revert k g rs Hd.
  induction Hin as [|d draws Hr Hin IH]; intros k g rs Hd Hlaw Hbound; [done|].
  destruct (exec_transaction_dense cc pc d (Z.of_nat k) pct g rs Hd Hr)
    as (cn & pn & Hcn & Hpn & Hexec).
  destruct (latest_use_step g (Z.of_nat k) (Qltb (rs 0) pct) _ _ cn pn
              Hcn Hpn Hlaw Hbound) as [Hlaw1 Hbound1].
  assert (Hone : Forall (in_range cc pc) [d]) by (constructor; [exact Hr|constructor]).
  pose proof (replay_transactions_dense cc pc pct [d] k g rs Hd Hone)
    as (Hd1 & _).
  unfold replay in Hd1 |- *. simpl in Hd1 |- *. simpl in Hexec.
  rewrite Hexec in Hd1 |- *. simpl in Hd1.
  apply (IH (S k)); done.
Qed.

(** After a completed run the [compromised] flag of a card is decided by its
    latest transaction alone: a card no transaction used is not compromised,
    and a card that was used has the flag of the device its latest
    transaction was at. *)
Theorem generate_data_flag_follows_latest_use (data : GenerateRequest)
    (w : World) :
  (0 ≤ req_frauds data ≤ req_pos data)%Z →
  (req_transactions data ≤ 0 ∨ (1 ≤ req_cards data ∧ 1 ≤ req_pos data))%Z →
  ∃ w',
    generate_data data w = (Returned created, w') ∧
    flag_follows_latest_use (memgraph w').
Proof.
  intros Hfr Hcase.
  destruct (generate_data_graph data w Hfr Hcase)
    as (devs & draws & w' & Hrun & _ & _ & _ & _ & Hdr & Hg).
  exists w'. split; [done|]. rewrite Hg.
  apply (replay_transactions_latest_use (req_cards data) (req_pos data));
    [apply seeded_dense | done | |].
  - intros c cn Hc. left. split; [intros t Ht; by apply elem_of_nil in Ht|].
    unfold seeded in Hc. simpl in Hc.
    change (map ?f) with (fmap (M:=list) f) in Hc.
    rewrite list_lookup_fmap in Hc.
    destruct (py_range (req_cards data) !! c); [|done]. by injection Hc as <-.
  - intros t c' Ht. by apply elem_of_nil in Ht.
Qed.

Lemma generate_data_flag_follows_latest_use_witness :
  ∃ w',
    generate_data (mkGenerateRequest 1 2 4 1 1%Q)
                  (mkWorld Graph.empty [] (λ _, 0%Q) (λ n, n))
      = (Returned created, w') ∧
    flag_follows_latest_use (memgraph w').
Proof.
  apply (generate_data_flag_follows_latest_use (mkGenerateRequest 1 2 4 1 1%Q)
           (mkWorld Graph.empty [] (λ _, 0%Q) (λ n, n)));
    [simpl; lia | right; simpl; lia].
Defined.

(** ** compromise_pos *)

(** [compromise_pos id] sets [compromised] on every device with that id,
    whatever its flag was, and changes nothing else: no other device, no
    card, no transaction, no relationship.  For an id no device carries it
    changes nothing. *)
Theorem compromise_pos_sets_flag (id : Z) (w : World) :
  ∃ w',
    compromise_pos id w = (Returned tt, w') ∧
    devices (memgraph w') =
      map (λ d, if Z.eqb (pos_id d) id then mkPos (pos_id d) true else d)
          (devices (memgraph w)) ∧
    cards (memgraph w') = cards (memgraph w) ∧
    transactions (memgraph w') = transactions (memgraph w) ∧
    using_edges (memgraph w') = using_edges (memgraph w) ∧
    at_edges (memgraph w') = at_edges (memgraph w).
Proof.
  eexists. split; [reflexivity|]. simpl.
  rewrite set_compromised_devices. split; [done|].
  by rewrite (set_compromised_rest id (memgraph w)).
Qed.

(** ** The rendering of the report probability *)

Lemma replay_transactions_unreported (cc pc : Z) (draws : list (Z * Z))
    (k : nat) (g : Graph.t) (rs : nat → Q) :
  dense cc pc g → Forall (in_range cc pc) draws →
  (∀ n, (0 <= rs n)%Q) →
  Forall (λ x, fraudReported x = false) (transactions g) →
  Forall (λ x, fraudReported x = false)
         (transactions (fst (replay (tx_statements k 0%Q draws) (g, rs)))).
Proof.
  intros Hd Hin. revert k g rs Hd.
  induction Hin as [|d draws Hr Hin IH]; intros k g rs Hd Hrs Hun; [done|].
  destruct (exec_transaction_dense cc pc d (Z.of_nat k) 0%Q g rs Hd Hr)
    as (cn & pn & Hcn & Hpn & Hexec).
  assert (Hone : Forall (in_range cc pc) [d]) by (constructor; [exact Hr|constructor]).
  pose proof (replay_transactions_dense cc pc 0%Q [d] k g rs Hd Hone)
    as (Hd1 & _).
  unfold replay in Hd1 |- *. simpl in Hd1 |- *. simpl in Hexec.
  rewrite Hexec in Hd1 |- *. simpl in Hd1.
  apply (IH (S k)); [done| |].
  - intros n. apply Hrs.
  - simpl. apply Forall_app. split; [done|]. constructor; [|constructor].
    simpl. unfold Qltb. rewrite (proj2 (Qle_bool_iff 0 (rs 0)) (Hrs 0)).
    by rewrite andb_false_r.
Qed.

(** The statement carries the report probability as [%f] renders it.  When
    that literal is [0.000000], as for every probability below [5e-7], a
    completed run reports no transaction, however many cards it compromises,
    as long as the store's [rand()] is never negative. *)
Theorem generate_data_probability_rendered_zero (data : GenerateRequest)
    (w : World) :
  percent_f (req_reports data) = 0%Q →
  (∀ n, (0 <= db_entropy w n)%Q) →
  (0 ≤ req_frauds data ≤ req_pos data)%Z →
  (req_transactions data ≤ 0 ∨ (1 ≤ req_cards data ∧ 1 ≤ req_pos data))%Z →
  ∃ w',
    generate_data data w = (Returned created, w') ∧
    Forall (λ x, fraudReported x = false) (transactions (memgraph w')).
Proof.
  intros Hzero Hrs Hfr Hcase.
  destruct (generate_data_graph data w Hfr Hcase)
    as (devs & draws & w' & Hrun & _ & _ & _ & _ & Hdr & Hg).
  exists w'. split; [done|]. rewrite Hg, Hzero.
  apply (replay_transactions_unreported (req_cards data) (req_pos data));
    [apply seeded_dense | done | done | constructor].
Qed.

Lemma generate_data_probability_rendered_zero_witness :
  ∃ w',
    generate_data (mkGenerateRequest 1 2 4 2 (1 # 10000000))
                  (mkWorld Graph.empty [] (λ _, 0%Q) (λ n, n))
      = (Returned created, w') ∧
    Forall (λ x, fraudReported x = false) (transactions (memgraph w')).
Proof.
  apply (generate_data_probability_rendered_zero
           (mkGenerateRequest 1 2 4 2 (1 # 10000000))
           (mkWorld Graph.empty [] (λ _, 0%Q) (λ n, n)));
    [reflexivity | intros n; simpl; apply Qle_refl | simpl; lia
    | right; simpl; lia].
Defined.
